(** * bears: an in-memory columnar table with group-by aggregation

    A shallow embedding of [src/bears.py] (class [DataTable] and the
    loader [read_csv]) together with the properties its specification
    states about grouping, error behaviour and CSV ingestion.

    Conventions of the embedding.
    - Cell values are a closed variant of the Python objects a table
      holds: [int] (unbounded, as [Z]), [float], [str] and [None].  A
      float cell is a binary64 float other than NaN that is not equal
      to an int (an infinity, or a finite float with a fractional
      part): on this universe Python's [==] and [hash] on dictionary
      keys are structural equality.  The numbers [sum] accumulates and
      [avg] divides are ints and arbitrary binary64 floats ([number]).
    - [+] on two ints is exact; with a float operand the int operand is
      first converted to a float, rounding to nearest even and raising
      [OverflowError] when it is too large, and the floats are added
      as binary64 floats (overflow gives an infinity, no exception).
    - A Python [dict] whose iteration order is observed (the results of
      [count] and [sum], iterated by [avg]) is an insertion-ordered
      association list with unique keys, module [Dict].  The table
      itself, only ever accessed by key, is a [gmap].
    - The [/] operator on two ints yields a binary64 float: the
      correctly rounded quotient, or [OverflowError] when it is out of
      range, or [ZeroDivisionError].  Floats are [spec_float] values at
      precision 53 and maximal exponent 1024.
    - Exceptions are values of type [exn]; a computation that may raise
      returns an [outcome]; a method of the table, which reads and
      writes [self.data_table], is a function from the table before
      the call to its outcome and the table after the call.
    - The callable that [map] is given runs like a method: a call sees
      the table as it is at that time and may bind columns of it.
      Columns are bound to lists, as the methods of the class bind
      them; a callable that changes a list object in place, or whose
      result depends on more than its argument and the table, is
      outside the embedding. *)

From Stdlib Require Import ZArith.
From Stdlib Require Import Floats.SpecFloat.
From stdpp Require Import gmap strings list fin_maps sorting.

Open Scope Z_scope.

(** ** Python values and exceptions *)

Definition prec : Z := 53.
Definition emax : Z := 1024.

#[global] Instance spec_float_eq_dec : EqDecision spec_float.
Proof. solve_decision. Defined.

(** The floats a cell may hold: valid binary64 floats that are an
    infinity or have a fractional part. *)
Definition cell_float (f : spec_float) : bool :=
  match f with
  | S754_infinity _ => true
  | S754_finite _ m e =>
      bounded prec emax m e && bool_decide (e < 0)
      && negb (bool_decide (Z.pos m `mod` 2 ^ (- e) = 0))
  | S754_zero _ | S754_nan => false
  end.

Inductive value : Type :=
  | VInt (n : Z)
  | VFloat (f : spec_float) (ok : Is_true (cell_float f))
  | VStr (s : string)
  | VNone.

#[global] Instance value_eq_dec : EqDecision value.
Proof.
  intros [n|f ok|s|] [n'|f' ok'|s'|]; try (right; discriminate).
  - destruct (decide (n = n')) as [->|Hne]; [by left | right; congruence].
  - destruct (decide (f = f')) as [->|Hne]; [left | right; congruence].
    f_equal. apply proof_irrel.
  - destruct (decide (s = s')) as [->|Hne]; [by left | right; congruence].
  - by left.
Defined.

(** [isinstance(v, numbers.Number)] *)
Definition is_number (v : value) : bool :=
  match v with
  | VInt _ | VFloat _ _ => true
  | VStr _ | VNone => false
  end.

(** The numbers arithmetic produces: ints and binary64 floats. *)
Inductive number : Type :=
  | NInt (n : Z)
  | NFloat (f : spec_float).

#[global] Instance number_eq_dec : EqDecision number.
Proof. solve_decision. Defined.

(** The exceptions the module can raise.  [NoSuchColumn] and
    [MalformedRow] are Python [ValueError]s, [NonNumericValue] is a
    [TypeError]; [Raised] is whatever a caller-supplied function
    raises. *)
Inductive exn : Type :=
  | NoSuchColumn (col_name : string)
  | NonNumericValue (found : value)
  | MalformedRow (expected actual : nat) (row_values : list string)
  | ZeroDivisionError
  | OverflowError
  | KeyError (key : value)
  | Raised (payload : value).

Inductive py_class : Type := ValueError | TypeError | ArithmeticError | LookupError | Exception.

Definition class_of (e : exn) : py_class :=
  match e with
  | NoSuchColumn _ | MalformedRow _ _ _ => ValueError
  | NonNumericValue _ => TypeError
  | ZeroDivisionError | OverflowError => ArithmeticError
  | KeyError _ => LookupError
  | Raised _ => Exception
  end.

Inductive outcome (A : Type) : Type :=
  | Ok (a : A)
  | Raise (e : exn).
Arguments Ok {A} a.
Arguments Raise {A} e.

#[global] Instance outcome_ret : MRet outcome := fun A a => Ok a.
#[global] Instance outcome_bind : MBind outcome := fun A B f m =>
  match m with
  | Ok a => f a
  | Raise e => Raise e
  end.

#[global] Instance exn_eq_dec : EqDecision exn.
Proof. solve_decision. Defined.
#[global] Instance outcome_eq_dec {A} `{EqDecision A} : EqDecision (outcome A).
Proof. solve_decision. Defined.

Definition succeeds {A} (o : outcome A) : Prop :=
  match o with Ok _ => True | Raise _ => False end.

(** ** Insertion-ordered dictionaries *)

Module Dict.
Section Dict.
Context {K V : Type} `{EqDecision K}.

Definition t := list (K * V).

Definition keys (d : list (K * V)) : list K := d.*1.

Fixpoint get (d : list (K * V)) (k : K) : option V :=
  match d with
  | [] => None
  | (k', v) :: d' => if decide (k' = k) then Some v else get d' k
  end.

(** [d[k] = v]: an existing key keeps its position. *)
Fixpoint set (d : list (K * V)) (k : K) (v : V) : list (K * V) :=
  match d with
  | [] => [(k, v)]
  | (k', v') :: d' =>
      if decide (k' = k) then (k', v) :: d' else (k', v') :: set d' k v
  end.
End Dict.
End Dict.

(** A [defaultdict(int)] read: [d[k]] is the stored value, or the
    default [0] when [k] is absent (Python then also stores the
    default under [k] at the end of the dictionary). *)
Definition defaultdict_getitem (d : list (value * Z)) (k : value) : Z * list (value * Z) :=
  match Dict.get d k with
  | Some v => (v, d)
  | None => (0, Dict.set d k 0)
  end.

(** [d[k] += x] on a [defaultdict(int)]. *)
Definition defaultdict_iadd (d : list (value * Z)) (k : value) (x : Z) : list (value * Z) :=
  let '(v, d') := defaultdict_getitem d k in
  Dict.set d' k (v + x).

(** ** Arithmetic on numbers *)

(** [float(n)] for an int [n]. *)
Definition int_to_float (n : Z) : outcome spec_float :=
  match binary_normalize prec emax n 0 false with
  | S754_infinity _ => Raise OverflowError
  | f => Ok f
  end.

(** [x + y] *)
Definition py_add (x y : number) : outcome number :=
  match x, y with
  | NInt a, NInt b => Ok (NInt (a + b))
  | NInt a, NFloat g => f ← int_to_float a; Ok (NFloat (SFadd prec emax f g))
  | NFloat f, NInt b => g ← int_to_float b; Ok (NFloat (SFadd prec emax f g))
  | NFloat f, NFloat g => Ok (NFloat (SFadd prec emax f g))
  end.

(** The read and the [+=] of the [defaultdict(int)] that [sum] fills:
    its values are numbers, the default is the int [0]. *)
Definition defaultdict_getitem_number (d : list (value * number)) (k : value)
    : number * list (value * number) :=
  match Dict.get d k with
  | Some v => (v, d)
  | None => (NInt 0, Dict.set d k (NInt 0))
  end.

Definition defaultdict_iadd_number (d : list (value * number)) (k : value) (x : number)
    : outcome (list (value * number)) :=
  let '(v, d') := defaultdict_getitem_number d k in
  total ← py_add v x;
  Ok (Dict.set d' k total).

(** ** True division *)

(** An int as an (unnormalised) binary float with exponent 0. *)
Definition int_as_float (n : Z) : spec_float :=
  match n with
  | Z0 => S754_zero false
  | Zpos p => S754_finite false p 0
  | Zneg p => S754_finite true p 0
  end.

(** [a / b] for Python ints: the quotient rounded once, to nearest
    even, to a binary64 float. *)
Definition int_true_divide (a b : Z) : outcome spec_float :=
  if decide (b = 0) then Raise ZeroDivisionError
  else
    match SFdiv prec emax (int_as_float a) (int_as_float b) with
    | S754_infinity _ => Raise OverflowError
    | q => Ok q
    end.

(** [x / c] for a number [x] and an int [c]. *)
Definition py_truediv (x : number) (c : Z) : outcome spec_float :=
  match x with
  | NInt a => int_true_divide a c
  | NFloat f =>
      g ← int_to_float c;
      if decide (c = 0) then Raise ZeroDivisionError else Ok (SFdiv prec emax f g)
  end.

(** [a // b], for comparison. *)
Definition int_floor_divide (a b : Z) : outcome Z :=
  if decide (b = 0) then Raise ZeroDivisionError else Ok (a `div` b).

(** The float a Python literal such as [4.5] denotes: [m * 2^e]
    rounded to binary64. *)
Definition float_of_scaled (m e : Z) : spec_float :=
  binary_normalize prec emax m e false.

(** ** The table and its methods *)

(** [self.data_table]: column name to the list of that column's row
    values. *)
Abbreviation data_table := (gmap string (list value)).

(** A method runs on the table's current contents and yields its
    outcome together with the contents it leaves behind. *)
Definition method (A : Type) : Type := data_table → outcome A * data_table.

#[global] Instance method_ret : MRet method := fun A a self => (Ok a, self).
#[global] Instance method_bind : MBind method := fun A B f m self =>
  match m self with
  | (Ok a, self') => f a self'
  | (Raise e, self') => (Raise e, self')
  end.

(** A computation that does not touch the table. *)
Definition pure {A} (o : outcome A) : method A := fun self => (o, self).

(** A callable of one argument, as [map] is given one, is a
    [value → method value]: a call runs on the table as it is at that
    time, may bind columns of it, and returns a value or raises.
    [of_function f] is the callable that is a function of its argument
    alone, such as the builtin [int]. *)
Definition of_function (f : value → outcome value) : value → method value :=
  fun x => pure (f x).

(** [self.data_table[col_name]] read as an expression. *)
Definition data_table_getitem (col_name : string) : method (list value) := fun self =>
  match self !! col_name with
  | Some values => (Ok values, self)
  | None => (Raise (KeyError (VStr col_name)), self)
  end.

(** [self.data_table[col_name] = values] *)
Definition data_table_setitem (col_name : string) (values : list value) : method unit :=
  fun self => (Ok (), <[col_name := values]> self).

(** [isinstance(v, numbers.Number)], giving the number when it holds. *)
Definition as_number (v : value) : option number :=
  match v with
  | VInt n => Some (NInt n)
  | VFloat f _ => Some (NFloat f)
  | VStr _ | VNone => None
  end.

Module DataTable.

Definition _validate_col_name (col_name : string) : method unit := fun self =>
  match self !! col_name with
  | None => (Raise (NoSuchColumn col_name), self)
  | Some _ => (Ok (), self)
  end.

Definition __getitem__ (col_name : string) : method (list value) :=
  _validate_col_name col_name ;;
  data_table_getitem col_name.

Definition __setitem__ (col_name : string) (values : list value) : method unit :=
  data_table_setitem col_name values.

(** The loop of [count]: [result[group_by_value] += 1]. *)
Fixpoint count_loop (group_by_values : list value) (result : list (value * Z))
    : list (value * Z) :=
  match group_by_values with
  | [] => result
  | group_by_value :: rest => count_loop rest (defaultdict_iadd result group_by_value 1)
  end.

Definition count (group_by : string) : method (list (value * Z)) :=
  _validate_col_name group_by ;;
  group_by_values ← data_table_getitem group_by;
  mret (count_loop group_by_values []).

(** The loop of [sum] over [zip(col_values, group_by_values)]. *)
Fixpoint sum_loop (pairs : list (value * value)) (result : list (value * number))
    : outcome (list (value * number)) :=
  match pairs with
  | [] => Ok result
  | (col_value, group_by_value) :: rest =>
      match as_number col_value with
      | None => Raise (NonNumericValue col_value)
      | Some n =>
          result' ← defaultdict_iadd_number result group_by_value n;
          sum_loop rest result'
      end
  end.

Definition sum (col_name group_by : string) : method (list (value * number)) :=
  _validate_col_name col_name ;;
  _validate_col_name group_by ;;
  col_values ← data_table_getitem col_name;
  group_by_values ← data_table_getitem group_by;
  pure (sum_loop (zip col_values group_by_values) []).

(** [{k: sum[k]/count[k] for k in sum.keys()}], in the key order of
    [sum]; both operands are [defaultdict] reads. *)
Fixpoint avg_comprehension (ks : list value) (sums : list (value * number))
    (counts : list (value * Z)) (acc : list (value * spec_float))
    : outcome (list (value * spec_float)) :=
  match ks with
  | [] => Ok acc
  | k :: rest =>
      q ← py_truediv (defaultdict_getitem_number sums k).1 (defaultdict_getitem counts k).1;
      avg_comprehension rest sums counts (Dict.set acc k q)
  end.

Definition avg (col_name group_by : string) : method (list (value * spec_float)) :=
  _validate_col_name col_name ;;
  _validate_col_name group_by ;;
  sums ← sum col_name group_by;
  counts ← count group_by;
  pure (avg_comprehension (Dict.keys sums) sums counts []).

(** [self.data_table[col_name] = [func(x) for x in self.data_table[col_name]]]:
    the list bound to the column is read once, the new list is built
    from it element by element from the left, each call of [func]
    running on the table the previous call left, and the new list is
    bound to the column afterwards. *)
Definition map (col_name : string) (func : value → method value) : method unit :=
  _validate_col_name col_name ;;
  xs ← data_table_getitem col_name;
  ys ← mapM (M := method) func xs;
  data_table_setitem col_name ys.

End DataTable.

(** The table of the unit tests. *)
Definition test_table : data_table :=
  <["B" := [VStr "x"; VStr "y"; VStr "x"; VStr "z"; VStr "z"]]>
  (<["A" := [VInt 1; VInt 2; VInt 3; VInt 4; VInt 5]]> ∅).

(** ** The CSV loader *)

(** The header row: [col_names[idx] = col_name; data[idx] = []] for
    [idx, col_name in enumerate(row_values)]. *)
Fixpoint header_loop (idx : nat) (row_values : list string)
    (col_names : gmap nat string) (data : gmap nat (list value))
    : gmap nat string * gmap nat (list value) :=
  match row_values with
  | [] => (col_names, data)
  | col_name :: rest =>
      header_loop (S idx) rest (<[idx := col_name]> col_names) (<[idx := []]> data)
  end.

(** A data row: [data[idx].append(col_value)] for
    [idx, col_value in enumerate(row_values)]. *)
Fixpoint append_loop (idx : nat) (row_values : list string)
    (data : gmap nat (list value)) : outcome (gmap nat (list value)) :=
  match row_values with
  | [] => Ok data
  | col_value :: rest =>
      match data !! idx with
      | None => Raise (KeyError (VInt (Z.of_nat idx)))
      | Some column => append_loop (S idx) rest (<[idx := column ++ [VStr col_value]]> data)
      end
  end.

(** The loop over the rows the CSV decoder yields. *)
Fixpoint rows_loop (rows : list (list string)) (row_num : nat)
    (col_names : gmap nat string) (data : gmap nat (list value))
    : outcome (gmap nat string * gmap nat (list value)) :=
  match rows with
  | [] => Ok (col_names, data)
  | row_values :: rest =>
      if decide (row_num = 1%nat) then
        let '(col_names', data') := header_loop 0 row_values col_names data in
        rows_loop rest (row_num + 1)%nat col_names' data'
      else if decide (length row_values ≠ size col_names) then
        Raise (MalformedRow (size col_names) (length row_values) row_values)
      else
        data' ← append_loop 0 row_values data;
        rows_loop rest (row_num + 1)%nat col_names data'
  end.

(** [{col_names[idx]: data[idx] for idx in range(len(col_names))}] *)
Fixpoint header_comprehension (idxs : list nat)
    (col_names : gmap nat string) (data : gmap nat (list value))
    (acc : data_table) : outcome data_table :=
  match idxs with
  | [] => Ok acc
  | idx :: rest =>
      match col_names !! idx, data !! idx with
      | Some col_name, Some column =>
          header_comprehension rest col_names data (<[col_name := column]> acc)
      | _, _ => Raise (KeyError (VInt (Z.of_nat idx)))
      end
  end.

(** [read_csv] on the rows [csv.reader] decodes from the file, the
    first of which is the header. *)
Definition read_csv (rows : list (list string)) : outcome data_table :=
  '(col_names, data) ← rows_loop rows 1%nat ∅ ∅;
  header_comprehension (seq 0 (size col_names)) col_names data ∅.

(** ** The report client, [population_stats.py]

    The functions of the client that work on the table alone.  The
    builtin [int] is a parameter: a conversion that returns a value or
    raises.  A Python [set] is a [gset]: like the set's iteration
    order, the order of [elements] is not specified.  [list.sort]
    orders a list with the [<] of its elements and raises a
    [TypeError] when two of them cannot be ordered. *)

(** A float as a sum of its fields, and back. *)
Definition float_code (f : spec_float) : bool + bool + unit + bool * positive * Z :=
  match f with
  | S754_zero s => inl (inl (inl s))
  | S754_infinity s => inl (inl (inr s))
  | S754_nan => inl (inr ())
  | S754_finite s m e => inr (s, m, e)
  end.

Definition float_of_code (c : bool + bool + unit + bool * positive * Z) : spec_float :=
  match c with
  | inl (inl (inl s)) => S754_zero s
  | inl (inl (inr s)) => S754_infinity s
  | inl (inr _) => S754_nan
  | inr (s, m, e) => S754_finite s m e
  end.

Definition float_of_code_code (f : spec_float) : float_of_code (float_code f) = f :=
  match f with
  | S754_zero _ | S754_infinity _ | S754_nan | S754_finite _ _ _ => eq_refl
  end.

(** The exact order between an int and a float that is not NaN:
    [int_lt_float a f] is [a < f], [float_lt_int f a] is [f < a]. *)
Definition int_lt_float (a : Z) (f : spec_float) : bool :=
  match f with
  | S754_infinity s => negb s
  | S754_zero _ => bool_decide (a < 0)
  | S754_finite s m e =>
      bool_decide (a * 2 ^ Z.max 0 (- e) < cond_Zopp s (Z.pos m) * 2 ^ Z.max 0 e)
  | S754_nan => false
  end.

Definition float_lt_int (f : spec_float) (a : Z) : bool :=
  match f with
  | S754_infinity s => s
  | S754_zero _ => bool_decide (0 < a)
  | S754_finite s m e =>
      bool_decide (cond_Zopp s (Z.pos m) * 2 ^ Z.max 0 e < a * 2 ^ Z.max 0 (- e))
  | S754_nan => false
  end.

#[global] Instance value_countable : Countable value.
Proof.
  refine (inj_countable'
            (λ v, match v with
                  | VInt n => inl n
                  | VStr s => inr (inl s)
                  | VNone => inr (inr (inl ()))
                  | VFloat f _ => inr (inr (inr (float_code f)))
                  end)
            (λ x, match x with
                  | inl n => VInt n
                  | inr (inl s) => VStr s
                  | inr (inr (inl _)) => VNone
                  | inr (inr (inr c)) =>
                      match Is_true_dec (cell_float (float_of_code c)) with
                      | left ok => VFloat (float_of_code c) ok
                      | right _ => VNone
                      end
                  end) _).
  intros [n|f ok|s|]; [done | | done | done].
  cbv beta iota. generalize (Is_true_dec (cell_float (float_of_code (float_code f)))).
  rewrite float_of_code_code. intros [ok'|Hno]; [|done].
  f_equal. apply proof_irrel.
Defined.

(** What the client can run into: an exception of the table module, or
    the [TypeError] of comparing two values that have no order. *)
Inductive client_exn : Type :=
  | BearsError (e : exn)
  | NotOrderable (x y : value).

Inductive client_outcome (A : Type) : Type :=
  | Returned (a : A)
  | Failed (e : client_exn).
Arguments Returned {A} a.
Arguments Failed {A} e.

(** [x < y] on Python values: defined between two numbers and between
    two strs. *)
Definition py_lt (x y : value) : client_outcome bool :=
  match x, y with
  | VInt a, VInt b => Returned (bool_decide (a < b))
  | VInt a, VFloat g _ => Returned (int_lt_float a g)
  | VFloat f _, VInt b => Returned (float_lt_int f b)
  | VFloat f _, VFloat g _ => Returned (SFltb f g)
  | VStr s, VStr s' => Returned (String.ltb s s')
  | _, _ => Failed (NotOrderable x y)
  end.

(** Insertion of [x] into an ascending list. *)
Fixpoint py_insert (x : value) (l : list value) : client_outcome (list value) :=
  match l with
  | [] => Returned [x]
  | y :: rest =>
      match py_lt x y with
      | Failed e => Failed e
      | Returned true => Returned (x :: y :: rest)
      | Returned false =>
          match py_insert x rest with
          | Failed e => Failed e
          | Returned rest' => Returned (y :: rest')
          end
      end
  end.

(** [l.sort()] *)
Fixpoint py_sort (l : list value) : client_outcome (list value) :=
  match l with
  | [] => Returned []
  | x :: rest =>
      match py_sort rest with
      | Failed e => Failed e
      | Returned sorted => py_insert x sorted
      end
  end.

Module PopulationStats.

Definition _MISSING_CBSA_PLACEHOLDER_VALUE : value := VInt (-1).
Definition _CBSA09_COL_NAME : string := "CBSA09".
Definition _CBSA_TITLE_COL_NAME : string := "CBSA_T".
Definition _TRACT_COL_NAME : string := "GEOID".
Definition _POPULATION_2000_COL_NAME : string := "POP00".
Definition _POPULATION_2010_COL_NAME : string := "POP10".
Definition _POP_CHANGE_PERCENT_COL_NAME : string := "POP_CHANGE_PERCENT".

(** [{k: v for k, v in zip(cbsa_ids, cbsa_titles)}] *)
Definition _get_cbsa_title_by_cbsa : method (list (value * value)) :=
  cbsa_ids ← DataTable.__getitem__ _CBSA09_COL_NAME;
  cbsa_titles ← DataTable.__getitem__ _CBSA_TITLE_COL_NAME;
  mret (foldl (λ d kv, Dict.set d kv.1 kv.2) [] (zip cbsa_ids cbsa_titles)).

(** The local function [cbsa_to_int] of [_read_data_table]. *)
Definition cbsa_to_int (int : value → outcome value) (v : value) : outcome value :=
  if decide (v = VStr "") then Ok _MISSING_CBSA_PLACEHOLDER_VALUE else int v.

(** [_read_data_table] on the rows of the input file: load, then
    convert the three numeric columns in place. *)
Definition _read_data_table (int : value → outcome value) (rows : list (list string))
    : outcome data_table :=
  table ← read_csv rows;
  match (DataTable.map _CBSA09_COL_NAME (of_function (cbsa_to_int int)) ;;
         DataTable.map _POPULATION_2000_COL_NAME (of_function int) ;;
         DataTable.map _POPULATION_2010_COL_NAME (of_function int)) table with
  | (Ok _, table') => Ok table'
  | (Raise e, _) => Raise e
  end.

Definition _get_unique_sorted_cbsa (table : data_table)
    : client_outcome (list value) * data_table :=
  match DataTable.__getitem__ _CBSA09_COL_NAME table with
  | (Raise e, table') => (Failed (BearsError e), table')
  | (Ok cbsa_ids, table') =>
      let unique_cbsa_ids : gset value := list_to_set cbsa_ids in
      let unique_cbsa_ids :=
        if decide (_MISSING_CBSA_PLACEHOLDER_VALUE ∈ unique_cbsa_ids)
        then unique_cbsa_ids ∖ {[_MISSING_CBSA_PLACEHOLDER_VALUE]}
        else unique_cbsa_ids in
      (py_sort (elements unique_cbsa_ids), table')
  end.

End PopulationStats.

(** A small census table: tract, CBSA code, CBSA title. *)
Definition census_table : data_table :=
  <["CBSA_T" := [VStr "Vernon, TX"; VStr "none"; VStr "Ketchikan, AK"; VStr "Vernon, TX"]]>
  (<["CBSA09" := [VInt 46900; VInt (-1); VInt 28540; VInt 46900]]>
   (<["GEOID" := [VStr "t1"; VStr "t2"; VStr "t3"; VStr "t4"]]> ∅)).

(** A stand-in for the builtin [int] on the few literals of the
    sample file below. *)
Definition sample_int (v : value) : outcome value :=
  if decide (v = VStr "46900") then Ok (VInt 46900)
  else if decide (v = VStr "120") then Ok (VInt 120)
  else if decide (v = VStr "150") then Ok (VInt 150)
  else if decide (v = VStr "80") then Ok (VInt 80)
  else Raise (Raised v).

(** A sample input file: header and two tracts, the second without a
    CBSA code. *)
Definition sample_rows : list (list string) :=
  [["GEOID"; "CBSA09"; "CBSA_T"; "POP00"; "POP10"];
   ["t1"; "46900"; "Vernon, TX"; "120"; "150"];
   ["t2"; ""; ""; "80"; "80"]].

(** The table [_read_data_table] makes of the sample file. *)
Definition sample_table : data_table :=
  <["POP10" := [VInt 150; VInt 80]]>
  (<["POP00" := [VInt 120; VInt 80]]>
   (<["CBSA_T" := [VStr "Vernon, TX"; VStr ""]]>
    (<["CBSA09" := [VInt 46900; VInt (-1)]]>
     (<["GEOID" := [VStr "t1"; VStr "t2"]]> ∅)))).

(** The float cells [1.5] and [2.5]. *)
Definition cell_1_5 : value := VFloat (float_of_scaled 3 (-1)) I.
Definition cell_2_5 : value := VFloat (float_of_scaled 5 (-1)) I.

(** A table with a column of ints and floats. *)
Definition mixed_table : data_table :=
  <["B" := [VStr "x"; VStr "y"; VStr "x"]]>
  (<["A" := [VInt 1; cell_2_5; cell_1_5]]> ∅).

(** A table whose column [A] adds an int too large for a float to a
    float. *)
Definition overflow_table : data_table :=
  <["B" := [VStr "x"; VStr "x"]]>
  (<["A" := [VInt (2 ^ 1024); cell_1_5]]> ∅).

(** ** Notions the properties are stated with *)

(** The row indices at which column [gs] holds the key [k]. *)
Definition rows_of (k : value) (gs : list value) : list nat :=
  filter (λ i, gs !! i = Some k) (seq 0 (length gs)).

(** The number of rows of [gs] holding [k], as a Python int. *)
Definition occurrences (k : value) (gs : list value) : Z :=
  Z.of_nat (length (rows_of k gs)).

(** The number a numeric cell holds. *)
Inductive denotes : value → number → Prop :=
  | denotes_int n : denotes (VInt n) (NInt n)
  | denotes_float f ok : denotes (VFloat f ok) (NFloat f).

(** [ns] added to [acc] one after the other, with [+]. *)
Fixpoint py_sum (acc : number) (ns : list number) : outcome number :=
  match ns with
  | [] => Ok acc
  | n :: rest => acc' ← py_add acc n; py_sum acc' rest
  end.

(** The entries of [ns] at the rows at which [gs] holds [k], in row
    order. *)
Definition group_addends {A} (k : value) (ns : list A) (gs : list value) : list A :=
  omap (λ i, ns !! i) (rows_of k gs).

(** What the rows paired with key [k] contribute in total. *)
Fixpoint weight (k : value) (rows : list (value * Z)) : Z :=
  match rows with
  | [] => 0
  | (g, x) :: rest => (if decide (g = k) then x else 0) + weight k rest
  end.

(** The dictionary after [d[g] += x] for each row [(g, x)] in turn. *)
Definition accumulate (rows : list (value * Z)) (d : list (value * Z)) : list (value * Z) :=
  foldl (λ d row, defaultdict_iadd d row.1 row.2) d rows.

(** The dictionary after [d[g] += x] for each numeric row [(g, x)] in
    turn, or the exception of the first addition that raises. *)
Fixpoint accumulate_number (rows : list (value * number)) (d : list (value * number))
    : outcome (list (value * number)) :=
  match rows with
  | [] => Ok d
  | (g, x) :: rest => d' ← defaultdict_iadd_number d g x; accumulate_number rest d'
  end.

(** The numbers of the rows with key [k], in row order. *)
Definition group_values (k : value) (rows : list (value * number)) : list number :=
  (filter (λ row, row.1 = k) rows).*2.

(** The division [avg] performs for key [k]. *)
Definition quotient (sums : list (value * number)) (counts : list (value * Z)) (k : value)
    : outcome spec_float :=
  py_truediv (defaultdict_getitem_number sums k).1 (defaultdict_getitem counts k).1.

(** The [j]-th field of each data row, in row order, as text. *)
Definition column (j : nat) (rows : list (list string)) : list value :=
  omap (λ row_values, VStr <$> row_values !! j) rows.

(** The columns read so far, each extended by its field of one more row. *)
Definition append_row (cols : list (list value)) (row_values : list string)
    : list (list value) :=
  zip_with (λ column col_value, column ++ [VStr col_value]) cols row_values.

(** The position of the last occurrence of [col_name] in the header. *)
Fixpoint last_index (col_name : string) (header : list string) : option nat :=
  match header with
  | [] => None
  | h :: rest =>
      match last_index col_name rest with
      | Some j => Some (S j)
      | None => if decide (h = col_name) then Some 0%nat else None
      end
  end.

(** The values of a dictionary, added up. *)
Definition dict_total (d : list (value * Z)) : Z := foldr Z.add 0 d.*2.

(** A list of numbers, added up. *)
Definition list_total (ns : list Z) : Z := foldr Z.add 0 ns.

(** A list with every repetition of an earlier element removed. *)
Fixpoint first_occurrences (l : list value) : list value :=
  match l with
  | [] => []
  | x :: rest => x :: filter (λ y, y ≠ x) (first_occurrences rest)
  end.

(** ** The scenarios of the unit tests, by evaluation *)

Example true_divide_9_2 : int_true_divide 9 2 = Ok (float_of_scaled 9 (-1)).
Proof. vm_compute. reflexivity. Qed.
Example true_divide_1_3 :
  int_true_divide 1 3 = Ok (S754_finite false 0x15555555555555 (-54)).
Proof. vm_compute. reflexivity. Qed.
Example true_divide_big :
  int_true_divide (10 ^ 30) 7 = Ok (S754_finite false 0x1cd98a8b00a10b (96 - 52)).
Proof. vm_compute. reflexivity. Qed.
Example true_divide_neg :
  int_true_divide (-7) 3 = Ok (S754_finite true 0x12aaaaaaaaaaab (1 - 52)).
Proof. vm_compute. reflexivity. Qed.
Example true_divide_max :
  int_true_divide (2 ^ 1024 - 2 ^ 970 - 1) 1 = Ok (S754_finite false 0x1fffffffffffff (1023 - 52)).
Proof. vm_compute. reflexivity. Qed.
Example true_divide_overflow : int_true_divide (2 ^ 1024 - 2 ^ 970) 1 = Raise OverflowError.
Proof. vm_compute. reflexivity. Qed.
Example true_divide_sub : int_true_divide 3 (2 ^ 1075) = Ok (S754_finite false 2 (-1074)).
Proof. vm_compute. reflexivity. Qed.
Example true_divide_under : int_true_divide 1 (2 ^ 1075) = Ok (S754_zero false).
Proof. vm_compute. reflexivity. Qed.

Example test_count :
  (DataTable.count "B" test_table).1 = Ok [(VStr "x", 2); (VStr "y", 1); (VStr "z", 2)].
Proof. vm_compute. reflexivity. Qed.
Example test_sum :
  (DataTable.sum "A" "B" test_table).1
  = Ok [(VStr "x", NInt 4); (VStr "y", NInt 2); (VStr "z", NInt 9)].
Proof. vm_compute. reflexivity. Qed.
Example sum_mixed :
  (DataTable.sum "A" "B" mixed_table).1
  = Ok [(VStr "x", NFloat (float_of_scaled 5 (-1))); (VStr "y", NFloat (float_of_scaled 5 (-1)))].
Proof. vm_compute. reflexivity. Qed.
Example avg_mixed :
  (DataTable.avg "A" "B" mixed_table).1
  = Ok [(VStr "x", float_of_scaled 5 (-2)); (VStr "y", float_of_scaled 5 (-1))].
Proof. vm_compute. reflexivity. Qed.
Example sum_overflow : (DataTable.sum "A" "B" overflow_table).1 = Raise OverflowError.
Proof. vm_compute. reflexivity. Qed.
Example add_rounds :
  py_add (NInt (2 ^ 53 + 1)) (NFloat (float_of_scaled 1 (-1))) = Ok (NFloat (float_of_scaled 1 53)).
Proof. vm_compute. reflexivity. Qed.
Example add_tenths :
  py_add (NFloat (float_of_scaled 0x1999999999999a (-56)))
    (NFloat (float_of_scaled 0x1999999999999a (-55)))
  = Ok (NFloat (S754_finite false 0x13333333333334 (-54))).
Proof. vm_compute. reflexivity. Qed.
Example sum_depends_on_row_order :
  py_sum (NInt 0)
    [NFloat (float_of_scaled 0x1999999999999a (-56));
     NFloat (float_of_scaled 0x1999999999999a (-55));
     NFloat (float_of_scaled 0x13333333333333 (-54))]
  = Ok (NFloat (S754_finite false 0x13333333333334 (-53)))
  ∧ py_sum (NInt 0)
      [NFloat (float_of_scaled 0x13333333333333 (-54));
       NFloat (float_of_scaled 0x1999999999999a (-55));
       NFloat (float_of_scaled 0x1999999999999a (-56))]
    = Ok (NFloat (S754_finite false 0x13333333333333 (-53))).
Proof. split; vm_compute; reflexivity. Qed.
Example sort_with_floats :
  py_sort [VInt 3; cell_1_5; VInt 2] = Returned [cell_1_5; VInt 2; VInt 3].
Proof. vm_compute. reflexivity. Qed.
Example test_avg :
  (DataTable.avg "A" "B" test_table).1 =
  Ok [(VStr "x", float_of_scaled 2 0); (VStr "y", float_of_scaled 2 0);
      (VStr "z", float_of_scaled 9 (-1))].
Proof. vm_compute. reflexivity. Qed.

Example true_division_is_not_floor_division :
  int_true_divide 9 2 = Ok (float_of_scaled 9 (-1)) ∧ int_floor_divide 9 2 = Ok 4.
Proof. split; vm_compute; reflexivity. Qed.
Example test_count_invalid_col_name :
  (DataTable.count "B" ∅).1 = Raise (NoSuchColumn "B")
  ∧ class_of (NoSuchColumn "B") = ValueError.
Proof. split; vm_compute; reflexivity. Qed.
Example test_set_item :
  (DataTable.__getitem__ "A" (DataTable.__setitem__ "A" [VInt 1; VInt 2] ∅).2).1
  = Ok [VInt 1; VInt 2].
Proof. vm_compute. reflexivity. Qed.
Example non_numeric_is_a_type_error : class_of (NonNumericValue (VStr "3")) = TypeError.
Proof. reflexivity. Qed.
Example test_sum_non_numeric_data :
  (DataTable.sum "A" "B" (<["A" := [VInt 1; VInt 2; VStr "3"; VInt 4; VInt 5]]> test_table)).1
  = Raise (NonNumericValue (VStr "3")).
Proof. vm_compute. reflexivity. Qed.
Example test_map :
  (DataTable.map "A"
     (of_function (λ x, match x with VInt n => Ok (VInt (n * n)) | _ => Raise (Raised x) end))
     test_table).2 !! "A" = Some [VInt 1; VInt 4; VInt 9; VInt 16; VInt 25].
Proof. vm_compute. reflexivity. Qed.
Example map_with_writing_transform :
  DataTable.map "A" (λ x self, (Raise (Raised x), <["A" := [VNone]]> self)) test_table
  = (Raise (Raised (VInt 1)), <["A" := [VNone]]> test_table).
Proof. vm_compute. reflexivity. Qed.
Example map_with_rebinding_transform :
  (DataTable.map "A" (λ x self, (Ok x, <["A" := []]> (<["C" := [x]]> self))) test_table).2
  = <["A" := [VInt 1; VInt 2; VInt 3; VInt 4; VInt 5]]>
      (<["A" := []]> (<["C" := [VInt 5]]> test_table)).
Proof. vm_compute. reflexivity. Qed.
Example test_read_csv :
  read_csv [["A"; "B"]; ["1"; "x"]; ["2"; "y"]]
  = Ok (<["A" := [VStr "1"; VStr "2"]]> (<["B" := [VStr "x"; VStr "y"]]> ∅)).
Proof. vm_compute. reflexivity. Qed.
Example test_read_csv_short_row :
  read_csv [["A"; "B"; "C"]; ["1"; "x"]] = Raise (MalformedRow 3 2 ["1"; "x"]).
Proof. vm_compute. reflexivity. Qed.

Example unique_sorted_census :
  (PopulationStats._get_unique_sorted_cbsa census_table).1
  = Returned [VInt 28540; VInt 46900].
Proof. vm_compute. reflexivity. Qed.
Example title_by_cbsa_census :
  (PopulationStats._get_cbsa_title_by_cbsa census_table).1
  = Ok [(VInt 46900, VStr "Vernon, TX"); (VInt (-1), VStr "none");
        (VInt 28540, VStr "Ketchikan, AK")].
Proof. vm_compute. reflexivity. Qed.
Example sort_mixed_fails : ∃ e, py_sort [VInt 1; VStr "a"] = Failed e.
Proof. eexists. vm_compute. reflexivity. Qed.

(** ** Facts about insertion-ordered dictionaries *)

Section DictFacts.
Context {K V : Type} `{EqDecision K}.
Implicit Types (d : list (K * V)) (k : K) (v : V).

Lemma dict_get_set_eq d k v : Dict.get (Dict.set d k v) k = Some v.
Proof.
  induction d as [|[k' v'] d IH]; simpl.
  - by rewrite decide_True.
  - destruct (decide (k' = k)) as [->|Hne]; simpl.
    + by rewrite decide_True.
    + by rewrite decide_False.
Qed.

Lemma dict_get_set_ne d k k' v : k ≠ k' → Dict.get (Dict.set d k v) k' = Dict.get d k'.
Proof.
  intros Hne. induction d as [|[k0 v0] d IH]; simpl.
  - by rewrite decide_False.
  - destruct (decide (k0 = k)) as [->|Hk]; simpl.
    + by rewrite !decide_False.
    + destruct (decide (k0 = k')); [done | apply IH].
Qed.

Lemma dict_get_None d k : Dict.get d k = None ↔ k ∉ Dict.keys d.
Proof.
  unfold Dict.keys. induction d as [|[k' v'] d IH]; simpl.
  - split; [intros _; apply not_elem_of_nil | done].
  - rewrite not_elem_of_cons. destruct (decide (k' = k)) as [->|Hne].
    + split; [done | intros [? _]; done].
    + rewrite IH. split; [intros ?; split; [congruence | done] | tauto].
Qed.

Lemma dict_get_is_Some d k : is_Some (Dict.get d k) ↔ k ∈ Dict.keys d.
Proof.
  rewrite <- not_eq_None_Some, dict_get_None.
  destruct (decide (k ∈ Dict.keys d)); tauto.
Qed.

Lemma dict_keys_set d k v :
  Dict.keys (Dict.set d k v)
  = if decide (k ∈ Dict.keys d) then Dict.keys d else Dict.keys d ++ [k].
Proof.
  unfold Dict.keys. induction d as [|[k' v'] d IH].
  - cbn [Dict.set fmap list_fmap fst]. case_decide as Hin; [|done].
    by apply elem_of_nil in Hin.
  - cbn [Dict.set]. destruct (decide (k' = k)) as [->|Hne].
    + rewrite decide_True; [done | rewrite fmap_cons; apply elem_of_cons; by left].
    + rewrite !fmap_cons, IH. cbn [fst].
      destruct (decide (k ∈ d.*1)) as [Hin|Hnin].
      * rewrite decide_True; [done | apply elem_of_cons; by right].
      * rewrite decide_False; [done |].
        rewrite elem_of_cons. intros [->|?]; done.
Qed.

Lemma dict_elem_of_keys_set d k v k' :
  k' ∈ Dict.keys (Dict.set d k v) ↔ k' = k ∨ k' ∈ Dict.keys d.
Proof.
  rewrite dict_keys_set. case_decide as Hin.
  - split; [tauto | intros [->|?]; done].
  - rewrite elem_of_app, list_elem_of_singleton. tauto.
Qed.

Lemma dict_NoDup_keys_set d k v :
  NoDup (Dict.keys d) → NoDup (Dict.keys (Dict.set d k v)).
Proof.
  intros Hnd. rewrite dict_keys_set. case_decide as Hin; [done |].
  apply NoDup_app. split_and!; [done | | apply NoDup_singleton].
  intros x Hx Hx'. apply list_elem_of_singleton in Hx'. by subst.
Qed.
End DictFacts.

(** ** The accumulation performed by [count] *)

Lemma get_defaultdict_iadd d g x k :
  Dict.get (defaultdict_iadd d g x) k
  = if decide (g = k) then Some (default 0 (Dict.get d g) + x) else Dict.get d k.
Proof.
  unfold defaultdict_iadd, defaultdict_getitem.
  destruct (Dict.get d g) as [v|] eqn:Hg.
  - case_decide as Hk; [subst; by rewrite dict_get_set_eq | by rewrite dict_get_set_ne].
  - case_decide as Hk; [subst; by rewrite dict_get_set_eq |].
    by rewrite !dict_get_set_ne.
Qed.

Lemma keys_defaultdict_iadd d g x k :
  k ∈ Dict.keys (defaultdict_iadd d g x) ↔ k = g ∨ k ∈ Dict.keys d.
Proof.
  unfold defaultdict_iadd, defaultdict_getitem.
  destruct (Dict.get d g) as [v|]; rewrite ?dict_elem_of_keys_set; tauto.
Qed.

Lemma NoDup_defaultdict_iadd d g x :
  NoDup (Dict.keys d) → NoDup (Dict.keys (defaultdict_iadd d g x)).
Proof.
  intros Hnd. unfold defaultdict_iadd, defaultdict_getitem.
  destruct (Dict.get d g) as [v|]; auto using dict_NoDup_keys_set.
Qed.

Lemma keys_accumulate rows d k :
  k ∈ Dict.keys (accumulate rows d) ↔ k ∈ rows.*1 ∨ k ∈ Dict.keys d.
Proof.
  revert d. induction rows as [|[g x] rows IH]; intros d; simpl.
  - rewrite elem_of_nil. tauto.
  - unfold accumulate in *. simpl. rewrite IH, keys_defaultdict_iadd, elem_of_cons. tauto.
Qed.

Lemma NoDup_accumulate rows d :
  NoDup (Dict.keys d) → NoDup (Dict.keys (accumulate rows d)).
Proof.
  revert d. induction rows as [|[g x] rows IH]; intros d Hnd; [done |].
  apply IH. by apply NoDup_defaultdict_iadd.
Qed.

Lemma get_accumulate rows d k :
  k ∈ rows.*1 ∨ k ∈ Dict.keys d →
  Dict.get (accumulate rows d) k = Some (default 0 (Dict.get d k) + weight k rows).
Proof.
  revert d. induction rows as [|[g x] rows IH]; intros d Hk.
  - destruct Hk as [Hk|Hk]; [by apply elem_of_nil in Hk |].
    apply dict_get_is_Some in Hk as [v Hv]. simpl. rewrite Hv. simpl. f_equal. lia.
  - change (accumulate ((g, x) :: rows) d) with (accumulate rows (defaultdict_iadd d g x)).
    rewrite IH.
    + rewrite get_defaultdict_iadd. simpl. case_decide as Hg; [subst; simpl |]; f_equal; lia.
    + rewrite keys_defaultdict_iadd. rewrite fmap_cons, elem_of_cons in Hk. simpl in Hk. tauto.
Qed.

Lemma filter_fmap_comm {A B} (f : A → B) (P : B → Prop) `{!∀ y, Decision (P y)} (l : list A) :
  filter P (f <$> l) = f <$> filter (λ x, P (f x)) l.
Proof.
  induction l as [|a l IH]; [done |].
  rewrite fmap_cons, !filter_cons, IH. by case_decide.
Qed.

Lemma rows_of_cons k g gs :
  rows_of k (g :: gs) = (if decide (g = k) then [0%nat] else []) ++ (S <$> rows_of k gs).
Proof.
  unfold rows_of. cbn [length seq]. rewrite filter_cons. cbn [lookup list_lookup].
  rewrite <- fmap_S_seq, filter_fmap_comm.
  destruct (decide (g = k)) as [->|Hne].
  - by rewrite decide_True.
  - rewrite decide_False; [done | congruence].
Qed.

Lemma weight_count k gs : weight k ((λ g, (g, 1)) <$> gs) = occurrences k gs.
Proof.
  unfold occurrences. induction gs as [|g gs IH]; [done |].
  rewrite fmap_cons, rows_of_cons, length_app, length_fmap. cbn [weight]. rewrite IH.
  case_decide; simpl; lia.
Qed.

Lemma count_loop_accumulate gs d :
  DataTable.count_loop gs d = accumulate ((λ g, (g, 1)) <$> gs) d.
Proof. revert d. induction gs as [|g gs IH]; intros d; [done | apply IH]. Qed.

(** ** The accumulation performed by [sum] *)

Lemma denotes_as_number v n : denotes v n ↔ as_number v = Some n.
Proof.
  split; [by intros [] |].
  destruct v; cbn; intros [= <-]; constructor.
Qed.

Lemma int_to_float_raise n e : int_to_float n = Raise e → e = OverflowError.
Proof.
  unfold int_to_float. destruct (binary_normalize _ _ _ _ _); congruence.
Qed.



(** One [+=] of [sum]: what it leaves, or how it raises. *)
Lemma iadd_number_cases d g x :
  match py_add (default (NInt 0) (Dict.get d g)) x with
  | Ok total =>
      ∃ d', defaultdict_iadd_number d g x = Ok d'
            ∧ Dict.get d' g = Some total
            ∧ (∀ k, g ≠ k → Dict.get d' k = Dict.get d k)
            ∧ Dict.keys d'
              = if decide (g ∈ Dict.keys d) then Dict.keys d else Dict.keys d ++ [g]
  | Raise e => defaultdict_iadd_number d g x = Raise e
  end.
Proof.
  unfold defaultdict_iadd_number, defaultdict_getitem_number.
  destruct (Dict.get d g) as [v|] eqn:Hg; cbn [from_option id].
  - destruct (py_add v x) as [total|e]; [|done]. eexists. split; [reflexivity |].
    split_and!; [apply dict_get_set_eq | by intros; apply dict_get_set_ne |].
    rewrite dict_keys_set. rewrite decide_True; [done |].
    apply dict_get_is_Some. by eexists.
  - destruct (py_add (NInt 0) x) as [total|e]; [|done]. eexists. split; [reflexivity |].
    split_and!; [apply dict_get_set_eq | by intros; rewrite !dict_get_set_ne |].
    rewrite !dict_keys_set. apply dict_get_None in Hg.
    rewrite (decide_False (P := g ∈ Dict.keys d)) by done.
    rewrite decide_True; [done |]. apply elem_of_app. right. by apply list_elem_of_singleton.
Qed.

Lemma group_values_cons k g x rows :
  group_values k ((g, x) :: rows)
  = if decide (g = k) then x :: group_values k rows else group_values k rows.
Proof. unfold group_values. rewrite filter_cons. cbn [fst]. by case_decide. Qed.

Lemma group_values_absent k rows : k ∉ rows.*1 → group_values k rows = [].
Proof.
  induction rows as [|[g x] rows IH]; [done |].
  rewrite fmap_cons, not_elem_of_cons. cbn [fst]. intros [Hne Hk].
  rewrite group_values_cons, decide_False by congruence. by apply IH.
Qed.

(** What a successful accumulation leaves under each key. *)
Lemma accumulate_number_Ok rows d r :
  accumulate_number rows d = Ok r →
  (∀ k, k ∉ rows.*1 → Dict.get r k = Dict.get d k)
  ∧ (∀ k, k ∈ rows.*1 →
       ∃ total, Dict.get r k = Some total
                ∧ py_sum (default (NInt 0) (Dict.get d k)) (group_values k rows) = Ok total)
  ∧ (∀ k, k ∈ Dict.keys r ↔ k ∈ rows.*1 ∨ k ∈ Dict.keys d)
  ∧ (NoDup (Dict.keys d) → NoDup (Dict.keys r)).
Proof.
  revert d. induction rows as [|[g x] rows IH]; intros d Hacc.
  - cbn in Hacc. injection Hacc as <-. split_and!; [done | | | done].
    + intros k Hk. by apply elem_of_nil in Hk.
    + intros k. cbn. rewrite elem_of_nil. tauto.
  - cbn [accumulate_number] in Hacc. pose proof (iadd_number_cases d g x) as Hcase.
    destruct (py_add (default (NInt 0) (Dict.get d g)) x) as [t1|e] eqn:Hadd.
    2:{ by rewrite Hcase in Hacc. }
    destruct Hcase as (d1 & Hd1 & Hg1 & Hother & Hkeys). rewrite Hd1 in Hacc. cbn in Hacc.
    destruct (IH d1 Hacc) as (IHout & IHin & IHkeys & IHnd).
    assert (Hmem : ∀ k, k ∈ Dict.keys d1 ↔ k = g ∨ k ∈ Dict.keys d).
    { intros k. rewrite Hkeys. case_decide as Hin.
      - split; [tauto | intros [->|?]; done].
      - rewrite elem_of_app, list_elem_of_singleton. tauto. }
    rewrite fmap_cons. cbn [fst]. split_and!.
    + intros k [Hne Hk]%not_elem_of_cons. rewrite (IHout k Hk). apply Hother. congruence.
    + intros k Hk. rewrite group_values_cons. destruct (decide (g = k)) as [->|Hne].
      * cbn [py_sum]. rewrite Hadd. cbn. destruct (decide (k ∈ rows.*1)) as [Hin|Hnin].
        -- destruct (IHin k Hin) as (total & Hget & Hsum). rewrite Hg1 in Hsum. by eauto.
        -- exists t1. rewrite (IHout k Hnin), (group_values_absent k rows Hnin). done.
      * apply elem_of_cons in Hk as [->|Hk]; [done |].
        destruct (IHin k Hk) as (total & Hget & Hsum). rewrite (Hother k Hne) in Hsum.
        by eauto.
    + intros k. rewrite IHkeys, Hmem, elem_of_cons. tauto.
    + intros Hnd. apply IHnd. rewrite Hkeys. case_decide as Hin; [done |].
      apply NoDup_app. split_and!; [done | | apply NoDup_singleton].
      intros k Hk Hk'. apply list_elem_of_singleton in Hk'. by subst.
Qed.



Lemma omap_fmap_S {A} (ns : list A) n (l : list nat) :
  omap (λ i, (n :: ns) !! i) (S <$> l) = omap (λ i, ns !! i) l.
Proof. induction l as [|i l IH]; [done |]. rewrite fmap_cons. cbn. by rewrite IH. Qed.

Lemma group_addends_nil {A} k gs : group_addends k (@nil A) gs = [].
Proof.
  unfold group_addends. induction (rows_of k gs) as [|i l IH]; [done |]. by cbn.
Qed.

Lemma group_addends_cons {A} k (n : A) ns g gs :
  group_addends k (n :: ns) (g :: gs)
  = if decide (g = k) then n :: group_addends k ns gs else group_addends k ns gs.
Proof.
  unfold group_addends. rewrite rows_of_cons, omap_app, omap_fmap_S. by case_decide.
Qed.


Lemma group_values_zip k (ns : list number) gs :
  group_values k (zip gs ns) = group_addends k ns gs.
Proof.
  revert ns. induction gs as [|g gs IH]; intros [|n ns];
    rewrite ?group_addends_nil; [done .. |].
  cbn [zip zip_with]. by rewrite group_values_cons, IH, group_addends_cons.
Qed.

(** The cells of a list denote numbers, or the list has a first cell
    that is no number. *)
Lemma first_non_number (l : list value) :
  (∃ ns, Forall2 denotes l ns)
  ∨ ∃ i v ns, l !! i = Some v ∧ is_number v = false ∧ Forall2 denotes (take i l) ns.
Proof.
  induction l as [|c l IH].
  - left. exists []. constructor.
  - destruct (as_number c) as [n|] eqn:Hc.
    + apply denotes_as_number in Hc. destruct IH as [[ns Hns]|(i & v & ns & Hi & Hv & Hns)].
      * left. exists (n :: ns). by constructor.
      * right. exists (S i), v, (n :: ns). split_and!; [done | done | by constructor].
    + right. exists 0%nat, c, []. split_and!; [done | | constructor].
      destruct c; cbn in *; congruence.
Qed.

(** The loop of [sum] over paired cells that all denote numbers. *)
Lemma sum_loop_denotes cs gs ns d :
  Forall2 denotes (take (length gs) cs) ns →
  DataTable.sum_loop (zip cs gs) d = accumulate_number (zip gs ns) d.
Proof.
  revert gs ns d. induction cs as [|c cs IH]; intros [|g gs] ns d Hden.
  - done.
  - cbn in Hden. apply Forall2_nil_inv_l in Hden as ->. done.
  - done.
  - cbn [length take] in Hden. apply Forall2_cons_inv_l in Hden as (n & ns' & Hc & Hden & ->).
    apply denotes_as_number in Hc.
    cbn [zip zip_with DataTable.sum_loop accumulate_number]. rewrite Hc.
    destruct (defaultdict_iadd_number d g n) as [d'|e]; [|done]. cbn. by apply IH.
Qed.

(** The loop of [sum] over paired cells the first of which that is no
    number is [v], at row [i]. *)
Lemma sum_loop_first cs gs ns d i v :
  take (length gs) cs !! i = Some v →
  is_number v = false →
  Forall2 denotes (take i cs) ns →
  DataTable.sum_loop (zip cs gs) d
  = accumulate_number (zip gs ns) d ≫= λ _, Raise (NonNumericValue v).
Proof.
  revert gs ns d i. induction cs as [|c cs IH]; intros [|g gs] ns d i Hi Hv Hden;
    [by destruct i .. |].
  destruct i as [|i].
  - cbn in Hi. injection Hi as ->. cbn in Hden. apply Forall2_nil_inv_l in Hden as ->.
    cbn [zip zip_with DataTable.sum_loop accumulate_number].
    destruct v; cbn in *; congruence.
  - cbn in Hi. cbn [take] in Hden.
    apply Forall2_cons_inv_l in Hden as (n & ns' & Hc & Hden & ->).
    apply denotes_as_number in Hc.
    cbn [zip zip_with DataTable.sum_loop accumulate_number]. rewrite Hc.
    destruct (defaultdict_iadd_number d g n) as [d'|e]; [|done]. cbn. by eapply IH.
Qed.

Lemma fst_zip_take {A B} (l : list A) (k : list B) : (zip l k).*1 = take (length k) l.
Proof.
  revert k. induction l as [|a l IH]; intros [|b k]; [done | done | done |].
  cbn. f_equal. apply IH.
Qed.

Lemma snd_zip_take {A B} (l : list A) (k : list B) : (zip l k).*2 = take (length l) k.
Proof.
  revert k. induction l as [|a l IH]; intros [|b k]; [done | done | done |].
  cbn. f_equal. apply IH.
Qed.

(** A successful accumulation from the empty dictionary, in terms of the
    group column and the numbers added. *)
Lemma accumulate_zip_Ok gs ns r :
  accumulate_number (zip gs ns) [] = Ok r →
  (∀ k, k ∈ take (length ns) gs →
     ∃ total, Dict.get r k = Some total
              ∧ py_sum (NInt 0) (group_addends k ns gs) = Ok total)
  ∧ (∀ k, py_sum (NInt 0) (group_addends k ns gs) ≠ Raise OverflowError)
  ∧ (∀ k, k ∈ Dict.keys r ↔ k ∈ take (length ns) gs)
  ∧ NoDup (Dict.keys r).
Proof.
  intros Hacc. destruct (accumulate_number_Ok _ _ _ Hacc) as (_ & Hin & Hkeys & Hnd).
  rewrite fst_zip_take in *. split_and!.
  - intros k Hk. destruct (Hin k Hk) as (total & Hget & Hsum).
    rewrite group_values_zip in Hsum. by eauto.
  - intros k. destruct (decide (k ∈ take (length ns) gs)) as [Hk|Hk].
    + destruct (Hin k Hk) as (total & _ & Hsum). rewrite group_values_zip in Hsum.
      cbn in Hsum. by rewrite Hsum.
    + rewrite <- group_values_zip, group_values_absent; [done |]. by rewrite fst_zip_take.
  - intros k. rewrite Hkeys. cbn. rewrite elem_of_nil. tauto.
  - apply Hnd. constructor.
Qed.


(** ** Running the methods on a table that has the columns *)

Lemma validate_present (t : data_table) col_name vs :
  t !! col_name = Some vs → DataTable._validate_col_name col_name t = (Ok (), t).
Proof. intros H. unfold DataTable._validate_col_name. by rewrite H. Qed.

Lemma validate_absent (t : data_table) col_name :
  t !! col_name = None →
  DataTable._validate_col_name col_name t = (Raise (NoSuchColumn col_name), t).
Proof. intros H. unfold DataTable._validate_col_name. by rewrite H. Qed.

Lemma count_present (t : data_table) group_by gs :
  t !! group_by = Some gs →
  DataTable.count group_by t = (Ok (DataTable.count_loop gs []), t).
Proof.
  intros H. unfold DataTable.count, mbind, method_bind.
  rewrite (validate_present _ _ _ H). unfold data_table_getitem. by rewrite H.
Qed.

Lemma sum_present (t : data_table) col_name group_by cs gs :
  t !! col_name = Some cs → t !! group_by = Some gs →
  DataTable.sum col_name group_by t = (DataTable.sum_loop (zip cs gs) [], t).
Proof.
  intros Hc Hg. unfold DataTable.sum, mbind, method_bind.
  rewrite (validate_present _ _ _ Hc), (validate_present _ _ _ Hg).
  unfold data_table_getitem. by rewrite Hc, Hg.
Qed.

Lemma occurrences_pos k gs : k ∈ gs → 0 < occurrences k gs.
Proof.
  intros [i Hi]%list_elem_of_lookup_1. unfold occurrences.
  assert (Hin : i ∈ rows_of k gs).
  { unfold rows_of. apply list_elem_of_filter. split; [done |].
    apply elem_of_seq. apply lookup_lt_Some in Hi. lia. }
  destruct (rows_of k gs); [by apply elem_of_nil in Hin | simpl; lia].
Qed.

(** ** Grouped count and sum *)






(** ** How the loop of [sum] ends *)

Lemma sum_loop_Ok cs gs sums :
  DataTable.sum_loop (zip cs gs) [] = Ok sums →
  ∃ ns, Forall2 denotes (take (length gs) cs) ns
        ∧ accumulate_number (zip gs ns) [] = Ok sums.
Proof.
  intros Hsum.
  destruct (first_non_number (take (length gs) cs)) as [[ns Hns]|(i & v & ns & Hi & Hv & Hns)].
  - exists ns. split; [done |]. by rewrite <- (sum_loop_denotes cs gs ns).
  - assert (Hlt : (i < length gs)%nat).
    { apply lookup_lt_Some in Hi. rewrite length_take in Hi. lia. }
    rewrite take_take, Nat.min_l in Hns by lia.
    rewrite (sum_loop_first cs gs ns [] i v Hi Hv Hns) in Hsum.
    by destruct (accumulate_number (zip gs ns) []).
Qed.


(** ** The comprehension of [avg] *)

Lemma py_truediv_nonzero x c e :
  c ≠ 0 → py_truediv x c = Raise e → e = OverflowError.
Proof.
  intros Hc. destruct x as [a|f]; cbn [py_truediv].
  - unfold int_true_divide. rewrite decide_False by done.
    destruct (SFdiv _ _ _ _); congruence.
  - destruct (int_to_float c) as [g|e'] eqn:Hg; cbn.
    + rewrite decide_False by done. done.
    + intros [= <-]. by eapply int_to_float_raise.
Qed.

Lemma avg_comprehension_raise ks sums counts acc e :
  DataTable.avg_comprehension ks sums counts acc = Raise e →
  ∃ k, k ∈ ks ∧ quotient sums counts k = Raise e.
Proof.
  revert acc. induction ks as [|k ks IH]; intros acc; [done |].
  cbn [DataTable.avg_comprehension]. fold (quotient sums counts k).
  destruct (quotient sums counts k) as [q|e'] eqn:Hq; cbn.
  - intros (k' & Hk' & He)%IH. exists k'. split; [by apply elem_of_cons; right | done].
  - intros [= ->]. exists k. split; [apply elem_of_cons; by left | done].
Qed.


Lemma avg_present (t : data_table) col_name group_by cs gs :
  t !! col_name = Some cs → t !! group_by = Some gs →
  DataTable.avg col_name group_by t
  = (sums ← DataTable.sum_loop (zip cs gs) [];
     DataTable.avg_comprehension (Dict.keys sums) sums (DataTable.count_loop gs []) [], t).
Proof.
  intros Hc Hg. unfold DataTable.avg, mbind at 1 2 3 4, method_bind.
  rewrite (validate_present _ _ _ Hc), (validate_present _ _ _ Hg).
  rewrite (sum_present _ _ _ _ _ Hc Hg).
  destruct (DataTable.sum_loop (zip cs gs) []) as [sums|e]; [|done].
  by rewrite (count_present _ _ _ Hg).
Qed.

Lemma sum_loop_keys cs gs sums k :
  DataTable.sum_loop (zip cs gs) [] = Ok sums → k ∈ Dict.keys sums → k ∈ gs.
Proof.
  intros (ns & _ & Hacc)%sum_loop_Ok Hk.
  destruct (accumulate_zip_Ok _ _ _ Hacc) as (_ & _ & Hkeys & _).
  apply Hkeys, elem_of_take in Hk as (i & Hi & _). by eapply list_elem_of_lookup_2.
Qed.


Lemma count_loop_get gs k :
  k ∈ gs → Dict.get (DataTable.count_loop gs []) k = Some (occurrences k gs).
Proof.
  intros Hk. rewrite count_loop_accumulate, get_accumulate, weight_count; [done |].
  left. by rewrite <- list_fmap_compose, list_fmap_id.
Qed.

Lemma sum_keys_positive_count cs gs sums k :
  DataTable.sum_loop (zip cs gs) [] = Ok sums → k ∈ Dict.keys sums →
  ∃ c, Dict.get (DataTable.count_loop gs []) k = Some c ∧ 0 < c.
Proof.
  intros Hsum Hk. exists (occurrences k gs).
  pose proof (sum_loop_keys _ _ _ _ Hsum Hk) as Hin.
  split; [by apply count_loop_get | by apply occurrences_pos].
Qed.

(** ** Averages *)

(** C4. On a table that has both columns, when [sum] succeeds [count]
    succeeds too and every key of [sum]'s result is a key of
    [count]'s result with a strictly positive count; the divisor [avg]
    uses for such a key is therefore not zero, and [avg] never fails
    with a division by zero. *)
Theorem sum_keys_counted (t : data_table) (col_name group_by : string)
    (cs gs : list value) (sums : list (value * number)) :
  t !! col_name = Some cs →
  t !! group_by = Some gs →
  (DataTable.sum col_name group_by t).1 = Ok sums →
  ∃ counts,
    DataTable.count group_by t = (Ok counts, t)
    ∧ (∀ k, k ∈ Dict.keys sums → ∃ c, Dict.get counts k = Some c ∧ 0 < c)
    ∧ (∀ k, k ∈ Dict.keys sums → (defaultdict_getitem counts k).1 ≠ 0)
    ∧ (DataTable.avg col_name group_by t).1 ≠ Raise ZeroDivisionError.
Proof.
  intros Hc Hg Hsum. rewrite (sum_present _ _ _ _ _ Hc Hg) in Hsum. cbn [fst] in Hsum.
  exists (DataTable.count_loop gs []).
  assert (Hpos : ∀ k, k ∈ Dict.keys sums →
            ∃ c, Dict.get (DataTable.count_loop gs []) k = Some c ∧ 0 < c).
  { intros k Hk. by eapply sum_keys_positive_count. }
  assert (Hdiv : ∀ k, k ∈ Dict.keys sums →
            (defaultdict_getitem (DataTable.count_loop gs []) k).1 ≠ 0).
  { intros k (c & Hget & Hc0)%Hpos. unfold defaultdict_getitem. rewrite Hget. cbn. lia. }
  split_and!; [by apply count_present | done | done |].
  rewrite (avg_present _ _ _ _ _ Hc Hg), Hsum. cbn.
  intros (k & Hk & Hq)%avg_comprehension_raise.
  unfold quotient in Hq. apply py_truediv_nonzero in Hq; [done | by apply Hdiv].
Qed.

Lemma sum_keys_counted_witness :
  ∃ counts,
    DataTable.count "B" test_table = (Ok counts, test_table)
    ∧ (∀ k, k ∈ Dict.keys [(VStr "x", NInt 4); (VStr "y", NInt 2); (VStr "z", NInt 9)] →
         ∃ c, Dict.get counts k = Some c ∧ 0 < c)
    ∧ (∀ k, k ∈ Dict.keys [(VStr "x", NInt 4); (VStr "y", NInt 2); (VStr "z", NInt 9)] →
         (defaultdict_getitem counts k).1 ≠ 0)
    ∧ (DataTable.avg "A" "B" test_table).1 ≠ Raise ZeroDivisionError.
Proof.
  apply (sum_keys_counted test_table "A" "B"
           [VInt 1; VInt 2; VInt 3; VInt 4; VInt 5]
           [VStr "x"; VStr "y"; VStr "x"; VStr "z"; VStr "z"]);
    vm_compute; reflexivity.
Defined.




(** ** Non-numeric data *)




(** ** Absent columns *)

(** C6. When column [C] is absent from the table, [get], [count], [sum]
    and [avg] with [C] in either position, and [map], all fail with
    [NoSuchColumn] whatever their other arguments, and leave the table
    as it was; the column named in the exception is [C] itself unless
    an absent first argument of [sum] or [avg] was rejected before. *)
Theorem absent_column_rejected (t : data_table) (C : string) :
  t !! C = None →
  DataTable.__getitem__ C t = (Raise (NoSuchColumn C), t)
  ∧ DataTable.count C t = (Raise (NoSuchColumn C), t)
  ∧ (∀ group_by, DataTable.sum C group_by t = (Raise (NoSuchColumn C), t))
  ∧ (∀ col_name, DataTable.sum col_name C t
       = (Raise (NoSuchColumn (match t !! col_name with Some _ => C | None => col_name end)), t))
  ∧ (∀ group_by, DataTable.avg C group_by t = (Raise (NoSuchColumn C), t))
  ∧ (∀ col_name, DataTable.avg col_name C t
       = (Raise (NoSuchColumn (match t !! col_name with Some _ => C | None => col_name end)), t))
  ∧ (∀ func, DataTable.map C func t = (Raise (NoSuchColumn C), t)).
Proof.
  intros HC.
  pose proof (validate_absent t C HC) as Hv.
  split_and!; try intros x.
  - unfold DataTable.__getitem__, mbind, method_bind. by rewrite Hv.
  - unfold DataTable.count, mbind, method_bind. by rewrite Hv.
  - unfold DataTable.sum, mbind, method_bind. by rewrite Hv.
  - unfold DataTable.sum, mbind, method_bind.
    destruct (t !! x) as [vs|] eqn:Hx.
    + by rewrite (validate_present _ _ _ Hx), Hv.
    + by rewrite (validate_absent _ _ Hx).
  - unfold DataTable.avg, mbind, method_bind. by rewrite Hv.
  - unfold DataTable.avg, mbind, method_bind.
    destruct (t !! x) as [vs|] eqn:Hx.
    + by rewrite (validate_present _ _ _ Hx), Hv.
    + by rewrite (validate_absent _ _ Hx).
  - unfold DataTable.map, mbind, method_bind. by rewrite Hv.
Qed.

Lemma absent_column_rejected_witness :
  DataTable.__getitem__ "C" test_table = (Raise (NoSuchColumn "C"), test_table)
  ∧ DataTable.count "C" test_table = (Raise (NoSuchColumn "C"), test_table)
  ∧ DataTable.sum "A" "C" test_table = (Raise (NoSuchColumn "C"), test_table)
  ∧ DataTable.avg "D" "C" test_table = (Raise (NoSuchColumn "D"), test_table).
Proof.
  destruct (absent_column_rejected test_table "C") as (Hget & Hcount & _ & Hsum & _ & Havg & _);
    [vm_compute; reflexivity |].
  split_and!; [exact Hget | exact Hcount | exact (Hsum "A") | exact (Havg "D")].
Defined.

(** ** Mapping a column *)

Lemma mapM_outcome_cases (func : value → outcome value) (xs : list value) :
  (∃ ys, mapM func xs = Ok ys ∧ Forall2 (λ x y, func x = Ok y) xs ys)
  ∨ (∃ i x e,
       mapM func xs = Raise e
       ∧ xs !! i = Some x
       ∧ func x = Raise e
       ∧ ∀ j y, xs !! j = Some y → (j < i)%nat → succeeds (func y)).
Proof.
  induction xs as [|x xs IH].
  - left. exists []. split; [done | constructor].
  - cbn [mapM]. destruct (func x) as [y|e] eqn:Hx.
    + destruct IH as [(ys & Hys & Hall)|(i & x' & e & Hr & Hi & He & Hlt)].
      * left. exists (y :: ys). rewrite Hys. split; [done | by constructor].
      * right. exists (S i), x', e. rewrite Hr. split_and!; [done .. |].
        intros [|j] w Hj Hlt'.
        -- cbn in Hj. injection Hj as <-. by rewrite Hx.
        -- apply (Hlt j); [done | lia].
    + right. exists 0%nat, x, e. split_and!; [done .. |]. intros; lia.
Qed.

Lemma method_bind_unfold {A B} (m : method A) (f : A → method B) (t : data_table) :
  (m ≫= f) t
  = match m t with
    | (Ok a, t') => f a t'
    | (Raise e, t') => (Raise e, t')
    end.
Proof. reflexivity. Qed.

(** The calls of a callable that does not write to the table are the
    calls of a function of the argument alone. *)
Lemma mapM_read_only (func : value → method value) xs (t : data_table) :
  (∀ x s, (func x s).2 = s) →
  mapM (M := method) func xs t = (mapM (λ x, (func x t).1) xs, t).
Proof.
  intros Hro. induction xs as [|x xs IH]; [done |].
  cbn [mapM]. rewrite method_bind_unfold.
  pose proof (Hro x t) as Hx. destruct (func x t) as [[y|e] t'] eqn:Hfx; cbn in Hx; subst t'.
  - rewrite method_bind_unfold, IH. cbn.
    by destruct (mapM (λ x0, (func x0 t).1) xs).
  - done.
Qed.

(** [map] on a present column: it fails as the calls of the transform
    do, on the table they left, and otherwise binds the new list on the
    table they left. *)
Lemma map_present (t : data_table) col_name (func : value → method value) xs :
  t !! col_name = Some xs →
  DataTable.map col_name func t
  = match mapM (M := method) func xs t with
    | (Ok ys, t') => (Ok (), <[col_name := ys]> t')
    | (Raise e, t') => (Raise e, t')
    end.
Proof.
  intros Hc. unfold DataTable.map. rewrite method_bind_unfold.
  rewrite (validate_present _ _ _ Hc), method_bind_unfold.
  unfold data_table_getitem. rewrite Hc, method_bind_unfold.
  by destruct (mapM func xs t) as [[ys|e] t'].
Qed.

Lemma map_present_read_only (t : data_table) col_name (func : value → method value) xs :
  t !! col_name = Some xs →
  (∀ x s, (func x s).2 = s) →
  DataTable.map col_name func t
  = match mapM (λ x, (func x t).1) xs with
    | Ok ys => (Ok (), <[col_name := ys]> t)
    | Raise e => (Raise e, t)
    end.
Proof.
  intros Hc Hro. rewrite (map_present _ _ _ _ Hc), (mapM_read_only _ _ _ Hro).
  by destruct (mapM _ xs).
Qed.

Lemma map_present_function (t : data_table) col_name (f : value → outcome value) xs :
  t !! col_name = Some xs →
  DataTable.map col_name (of_function f) t
  = match mapM f xs with
    | Ok ys => (Ok (), <[col_name := ys]> t)
    | Raise e => (Raise e, t)
    end.
Proof. intros Hc. by rewrite (map_present_read_only _ _ (of_function f) _ Hc). Qed.

(** C7 (amended). On a table that has column [col_name], [map] writes
    nothing when a call of the transform fails: it fails with the
    exception of that call, on the table as the calls of the transform
    themselves left it.  So with a transform that does not write to the
    table, if it fails on some element then [map] fails with the
    exception of the first element it fails on, and the table, the
    column included, is exactly as before the call: no image of the
    elements before that one is kept. *)
Theorem map_failure_leaves_column (t : data_table) (col_name : string)
    (func : value → method value) (xs : list value) :
  t !! col_name = Some xs →
  (∀ e t', mapM (M := method) func xs t = (Raise e, t') →
     DataTable.map col_name func t = (Raise e, t'))
  ∧ ((∀ x s, (func x s).2 = s) →
     (∃ x, x ∈ xs ∧ ¬ succeeds (func x t).1) →
     ∃ e i x,
       DataTable.map col_name func t = (Raise e, t)
       ∧ xs !! i = Some x
       ∧ (func x t).1 = Raise e
       ∧ (∀ j y, xs !! j = Some y → (j < i)%nat → succeeds (func y t).1)
       ∧ (DataTable.map col_name func t).2 !! col_name = Some xs).
Proof.
  intros Hc. split.
  - intros e t' Hrun. by rewrite (map_present _ _ _ _ Hc), Hrun.
  - intros Hro (x & Hx & Hfail). rewrite (map_present_read_only _ _ _ _ Hc Hro).
    destruct (mapM_outcome_cases (λ x, (func x t).1) xs)
      as [(ys & Hys & Hall)|(i & x' & e' & Hr & Hi & He & Hlt)].
    + exfalso. apply list_elem_of_lookup_1 in Hx as [i Hi].
      destruct (Forall2_lookup_l _ _ _ _ _ Hall Hi) as (y & _ & Hy).
      apply Hfail. by rewrite Hy.
    + exists e', i, x'. rewrite Hr. split_and!; done.
Qed.

Lemma map_failure_leaves_column_witness :
  ∃ e i x,
    DataTable.map "A"
      (of_function (λ v, if decide (v = VInt 3) then Raise (Raised v) else Ok (VStr "done")))
      test_table = (Raise e, test_table)
    ∧ [VInt 1; VInt 2; VInt 3; VInt 4; VInt 5] !! i = Some x
    ∧ (of_function (λ v, if decide (v = VInt 3) then Raise (Raised v) else Ok (VStr "done"))
         x test_table).1 = Raise e
    ∧ (∀ j y, [VInt 1; VInt 2; VInt 3; VInt 4; VInt 5] !! j = Some y → (j < i)%nat →
         succeeds
           (of_function (λ v, if decide (v = VInt 3) then Raise (Raised v) else Ok (VStr "done"))
              y test_table).1)
    ∧ (DataTable.map "A"
         (of_function (λ v, if decide (v = VInt 3) then Raise (Raised v) else Ok (VStr "done")))
         test_table).2 !! "A" = Some [VInt 1; VInt 2; VInt 3; VInt 4; VInt 5].
Proof.
  destruct (map_failure_leaves_column test_table "A"
              (of_function
                 (λ v, if decide (v = VInt 3) then Raise (Raised v) else Ok (VStr "done")))
              [VInt 1; VInt 2; VInt 3; VInt 4; VInt 5]) as [_ Hfail];
    [vm_compute; reflexivity |].
  apply Hfail; [reflexivity |].
  exists (VInt 3). split; [| vm_compute; tauto].
  apply (bool_decide_unpack _). vm_compute. exact I.
Defined.

(** C7, as stated, fails: on the table of the unit tests, with a
    transform that fails on the third element of column [A], the first
    two elements have been transformed when the failure propagates, yet
    the column after the failed [map] is the column before it, not a
    partially modified one.  It is so for every table and every failing
    transform that does not itself write to the table. *)
Lemma map_partial_state_counterexample :
  let func := of_function (λ v, if decide (v = VInt 3) then Raise (Raised v)
                                else Ok (VStr "done")) in
  test_table !! "A" = Some [VInt 1; VInt 2; VInt 3; VInt 4; VInt 5]
  ∧ (func (VInt 1) test_table).1 = Ok (VStr "done")
  ∧ (func (VInt 3) test_table).1 = Raise (Raised (VInt 3))
  ∧ DataTable.map "A" func test_table = (Raise (Raised (VInt 3)), test_table)
  ∧ (DataTable.map "A" func test_table).2 !! "A"
    = Some [VInt 1; VInt 2; VInt 3; VInt 4; VInt 5]
  ∧ ¬ ∃ (t : data_table) (col_name : string) (func : value → method value)
        (xs : list value),
        t !! col_name = Some xs
        ∧ (∀ x s, (func x s).2 = s)
        ∧ (∃ x e, x ∈ xs ∧ (func x t).1 = Raise e)
        ∧ (DataTable.map col_name func t).2 !! col_name ≠ Some xs.
Proof.
  cbv zeta. split_and!; [vm_compute; reflexivity .. |].
  intros (t & col_name & func & xs & Hc & Hro & (x & e & Hx & He) & Hdiff).
  apply Hdiff. rewrite (map_present_read_only _ _ _ _ Hc Hro).
  destruct (mapM_outcome_cases (λ x, (func x t).1) xs)
    as [(ys & Hys & Hall)|(i & x' & e' & Hr & _)].
  - apply list_elem_of_lookup_1 in Hx as [i Hi].
    destruct (Forall2_lookup_l _ _ _ _ _ Hall Hi) as (y & _ & Hy). congruence.
  - by rewrite Hr.
Qed.

(** ** The CSV loader: header, data rows, final pivot *)

Lemma size_map_seq {A} start (xs : list A) :
  size (map_seq start xs : gmap nat A) = length xs.
Proof.
  revert start. induction xs as [|x xs IH]; intros start.
  - apply map_size_empty.
  - rewrite map_seq_cons, map_size_insert_None by apply map_seq_cons_disjoint.
    cbn [length]. by rewrite IH.
Qed.

Lemma header_loop_map_seq idx row_values col_names data :
  header_loop idx row_values col_names data
  = (map_seq idx row_values ∪ col_names,
     map_seq idx (replicate (length row_values) []) ∪ data).
Proof.
  revert idx col_names data.
  induction row_values as [|col_name rest IH]; intros idx col_names data.
  - cbn. by rewrite !(left_id_L ∅ (∪)).
  - cbn [header_loop length replicate]. rewrite IH, !map_seq_cons.
    rewrite <- !insert_union_l, !insert_union_r by apply map_seq_cons_disjoint.
    done.
Qed.

Lemma header_loop_fresh row_values :
  header_loop 0 row_values ∅ ∅
  = (map_seq 0 row_values, map_seq 0 (replicate (length row_values) [])).
Proof. by rewrite header_loop_map_seq, !(right_id_L ∅ (∪)). Qed.

Lemma append_loop_map_seq row_values filled cols :
  length row_values = length cols →
  append_loop (length filled) row_values (map_seq 0 (filled ++ cols))
  = Ok (map_seq 0 (filled ++ append_row cols row_values)).
Proof.
  revert filled cols.
  induction row_values as [|col_value rest IH]; intros filled [|column cols] Hlen;
    try done.
  cbn [append_loop]. rewrite lookup_map_seq_0, list_lookup_middle by done.
  rewrite insert_map_seq_0 by (rewrite length_app; cbn; lia).
  replace (<[length filled := column ++ [VStr col_value]]> (filled ++ column :: cols))
    with ((filled ++ [column ++ [VStr col_value]]) ++ cols).
  2:{ rewrite <- (Nat.add_0_r (length filled)), insert_app_r. cbn.
      by rewrite <- app_assoc. }
  replace (S (length filled)) with (length (filled ++ [column ++ [VStr col_value]]))
    by (rewrite length_app; cbn; lia).
  rewrite IH by (cbn in Hlen; lia).
  unfold append_row. cbn [zip_with]. by rewrite <- app_assoc.
Qed.

Lemma length_append_row cols row_values :
  length row_values = length cols → length (append_row cols row_values) = length cols.
Proof. intros H. unfold append_row. rewrite length_zip_with. lia. Qed.

(** The data rows, once the header has been read. *)
Lemma rows_loop_data rows row_num (col_names : gmap nat string) cols :
  (2 ≤ row_num)%nat →
  size col_names = length cols →
  (Forall (λ row_values, length row_values = length cols) rows
   ∧ rows_loop rows row_num col_names (map_seq 0 cols)
     = Ok (col_names, map_seq 0 (foldl append_row cols rows)))
  ∨ (∃ i row_values,
       rows !! i = Some row_values
       ∧ length row_values ≠ length cols
       ∧ (∀ j r, rows !! j = Some r → (j < i)%nat → length r = length cols)
       ∧ rows_loop rows row_num col_names (map_seq 0 cols)
         = Raise (MalformedRow (length cols) (length row_values) row_values)).
Proof.
  revert row_num cols. induction rows as [|row_values rows IH]; intros row_num cols Hnum Hsize.
  - left. split; [constructor | done].
  - cbn [rows_loop]. rewrite decide_False by lia. rewrite Hsize.
    destruct (decide (length row_values ≠ length cols)) as [Hbad|Hgood].
    + right. exists 0%nat, row_values. split_and!; [done | done | intros; lia | done].
    + apply dec_stable in Hgood.
      pose proof (append_loop_map_seq row_values [] cols Hgood) as Happ.
      cbn [length app] in Happ. rewrite Happ. cbn.
      destruct (IH (row_num + 1)%nat (append_row cols row_values))
        as [(Hall & Hok)|(i & r & Hi & Hr & Hlt & Hraise)].
      * lia.
      * by rewrite length_append_row.
      * left. rewrite length_append_row in Hall by done.
        split; [by constructor | exact Hok].
      * right. rewrite length_append_row in Hr, Hlt, Hraise by done.
        exists (S i), r. split_and!; [done | done | | done].
        intros [|j] r' Hj Hlt'; [cbn in Hj; congruence | apply (Hlt j); [done | lia]].
Qed.

Lemma length_pivot cols rows :
  Forall (λ row_values : list string, length row_values = length cols) rows →
  length (foldl append_row cols rows) = length cols.
Proof.
  revert cols. induction rows as [|r rows IH]; intros cols Hall; [done |].
  apply Forall_cons in Hall as [Hr Hall]. cbn [foldl].
  rewrite IH; rewrite length_append_row by done; done.
Qed.

Lemma column_cons j row_values rows v :
  row_values !! j = Some v → column j (row_values :: rows) = VStr v :: column j rows.
Proof. intros Hv. unfold column. cbn [omap list_omap]. by rewrite Hv. Qed.

Lemma lookup_pivot cols rows j :
  Forall (λ row_values : list string, length row_values = length cols) rows →
  foldl append_row cols rows !! j = (λ c, c ++ column j rows) <$> cols !! j.
Proof.
  revert cols. induction rows as [|r rows IH]; intros cols Hall.
  - cbn. destruct (cols !! j); cbn; [by rewrite app_nil_r | done].
  - apply Forall_cons in Hall as [Hr Hall]. cbn [foldl].
    rewrite IH by (by rewrite length_append_row).
    unfold append_row at 1. rewrite lookup_zip_with.
    destruct (cols !! j) as [c|] eqn:Hc; [|done].
    destruct (r !! j) as [v|] eqn:Hv.
    + rewrite (column_cons _ _ _ _ Hv). cbn. by rewrite <- app_assoc.
    + apply lookup_lt_Some in Hc. apply lookup_ge_None in Hv. lia.
Qed.

Lemma column_fields rows j n :
  Forall (λ row_values : list string, length row_values = n) rows → (j < n)%nat →
  length (column j rows) = length rows
  ∧ ∀ i row_values, rows !! i = Some row_values →
      column j rows !! i = VStr <$> row_values !! j.
Proof.
  intros Hall Hj. induction Hall as [|r rows Hr _ IH]; [done |].
  destruct IH as [IHlen IHget].
  destruct (lookup_lt_is_Some_2 r j) as [v Hv]; [lia |].
  rewrite (column_cons _ _ _ _ Hv). split; [cbn; by rewrite IHlen |].
  intros [|i] r' Hi; cbn in Hi.
  - injection Hi as <-. by rewrite Hv.
  - by apply IHget.
Qed.

Lemma last_index_snoc col_name header h :
  last_index col_name (header ++ [h])
  = if decide (h = col_name) then Some (length header) else last_index col_name header.
Proof.
  induction header as [|h' header IH]; cbn.
  - by case_decide.
  - rewrite IH. case_decide; [done |]. by destruct (last_index col_name header).
Qed.

Lemma last_index_None col_name header :
  last_index col_name header = None → ∀ j, header !! j ≠ Some col_name.
Proof.
  induction header as [|h header IH]; intros Hlast j; [done |].
  cbn in Hlast. destruct (last_index col_name header); [done |].
  case_decide as Hh; [done |].
  destruct j as [|j]; cbn; [congruence | by apply IH].
Qed.

Lemma last_index_Some col_name header j :
  last_index col_name header = Some j
  ↔ header !! j = Some col_name ∧ ∀ j', (j < j')%nat → header !! j' ≠ Some col_name.
Proof.
  revert j. induction header as [|h header IH]; intros j; cbn [last_index].
  - split; [done | by intros [? _]].
  - destruct (last_index col_name header) as [j0|] eqn:Hlast.
    + destruct (proj1 (IH j0) eq_refl) as [Hj0 Hlater]. split.
      * intros [= <-]. split; [done |].
        intros [|j'] Hlt; [lia |]. cbn. apply Hlater. lia.
      * intros [Hj Hnone]. destruct j as [|j].
        { exfalso. apply (Hnone (S j0)); [lia | done]. }
        assert (Hjj : Some j0 = Some j).
        { apply IH. split; [done |]. intros j' Hlt. apply (Hnone (S j')). lia. }
        congruence.
    + pose proof (last_index_None _ _ Hlast) as Hnot.
      case_decide as Hh.
      * split.
        -- intros [= <-]. split; [by subst |]. intros [|j'] Hlt; [lia | apply Hnot].
        -- intros [Hj _]. destruct j as [|j]; [done |]. cbn in Hj. by apply Hnot in Hj.
      * split; [done |]. intros [Hj _]. destruct j as [|j]; cbn in Hj; [congruence |].
        by apply Hnot in Hj.
Qed.

Lemma header_comprehension_app idxs1 idxs2 col_names data acc :
  header_comprehension (idxs1 ++ idxs2) col_names data acc
  = header_comprehension idxs1 col_names data acc
    ≫= header_comprehension idxs2 col_names data.
Proof.
  revert acc. induction idxs1 as [|idx idxs1 IH]; intros acc; [done |].
  cbn [app header_comprehension].
  destruct (col_names !! idx), (data !! idx); auto.
Qed.

Lemma header_comprehension_seq header (cols : list (list value)) n :
  (n ≤ length header)%nat → length cols = length header →
  ∃ t : data_table,
    header_comprehension (seq 0 n) (map_seq 0 header) (map_seq 0 cols) ∅ = Ok t
    ∧ ∀ col_name, t !! col_name = last_index col_name (take n header) ≫= (cols !!.).
Proof.
  intros Hn Hlen. induction n as [|n IH].
  - exists ∅. split; [done |]. intros col_name. by rewrite take_0, lookup_empty.
  - destruct IH as (t & Ht & Hlookup); [lia |].
    destruct (lookup_lt_is_Some_2 header n) as [h Hh]; [lia |].
    destruct (lookup_lt_is_Some_2 cols n) as [c Hc]; [lia |].
    exists (<[h := c]> t). split.
    + rewrite seq_S, header_comprehension_app, Ht. cbn.
      by rewrite !lookup_map_seq_0, Hh, Hc.
    + intros col_name. rewrite (take_S_r _ _ _ Hh), last_index_snoc.
      rewrite length_take_le by lia. rewrite lookup_insert. case_decide; by cbn.
Qed.

(** How [read_csv] ends on a file with a header row. *)
Lemma read_csv_cases header rows :
  (Forall (λ row_values, length row_values = length header) rows
   ∧ ∃ t : data_table,
       read_csv (header :: rows) = Ok t
       ∧ ∀ col_name, t !! col_name = (λ j, column j rows) <$> last_index col_name header)
  ∨ (∃ i row_values,
       rows !! i = Some row_values
       ∧ length row_values ≠ length header
       ∧ (∀ j r, rows !! j = Some r → (j < i)%nat → length r = length header)
       ∧ read_csv (header :: rows)
         = Raise (MalformedRow (length header) (length row_values) row_values)).
Proof.
  unfold read_csv. cbn [rows_loop]. rewrite decide_True by done.
  rewrite header_loop_fresh.
  set (cols := replicate (length header) (@nil value)).
  assert (Hcols : length cols = length header) by apply length_replicate.
  destruct (rows_loop_data rows (1 + 1)%nat (map_seq 0 header) cols)
    as [(Hall & Hok)|(i & r & Hi & Hr & Hlt & Hraise)].
  - lia.
  - by rewrite size_map_seq.
  - left. rewrite Hcols in Hall. split; [done |].
    rewrite Hok. cbn. rewrite size_map_seq.
    destruct (header_comprehension_seq header (foldl append_row cols rows) (length header))
      as (t & Ht & Hlookup).
    + done.
    + rewrite length_pivot by (by rewrite Hcols). done.
    + exists t. split; [done |]. intros col_name.
      rewrite Hlookup, take_ge by done.
      destruct (last_index col_name header) as [j|] eqn:Hlast; [|done]. cbn.
      rewrite lookup_pivot by (by rewrite Hcols).
      apply last_index_Some in Hlast as [Hj _]. apply lookup_lt_Some in Hj.
      unfold cols. by rewrite lookup_replicate_2.
  - right. rewrite Hcols in Hr, Hlt, Hraise. exists i, r.
    split_and!; [done .. |]. by rewrite Hraise.
Qed.

Lemma getitem_present (t : data_table) col_name values :
  t !! col_name = Some values → DataTable.__getitem__ col_name t = (Ok values, t).
Proof.
  intros H. unfold DataTable.__getitem__, mbind, method_bind.
  rewrite (validate_present _ _ _ H). unfold data_table_getitem. by rewrite H.
Qed.

Lemma NoDup_last_index (header : list string) j col_name :
  NoDup header → header !! j = Some col_name → last_index col_name header = Some j.
Proof.
  intros Hnd Hj. apply last_index_Some. split; [done |].
  intros j' Hlt Hj'. pose proof (NoDup_lookup _ _ _ _ Hnd Hj Hj'). lia.
Qed.

(** ** Loading a CSV file *)

(** C8. For a file whose header has distinct names and whose data rows
    all have as many fields as the header, [read_csv] returns a table
    in which the [j]-th header name is bound to the [j]-th field of
    each data row, in row order and as text, and no other name is
    bound. *)
Theorem read_csv_columns (header : list string) (rows : list (list string)) :
  NoDup header →
  Forall (λ row_values, length row_values = length header) rows →
  ∃ t : data_table,
    read_csv (header :: rows) = Ok t
    ∧ (∀ j col_name, header !! j = Some col_name →
         DataTable.__getitem__ col_name t = (Ok (column j rows), t)
         ∧ length (column j rows) = length rows
         ∧ ∀ i row_values, rows !! i = Some row_values →
             column j rows !! i = VStr <$> row_values !! j)
    ∧ (∀ col_name, col_name ∉ header → t !! col_name = None).
Proof.
  intros Hnd Hall.
  destruct (read_csv_cases header rows) as [(_ & t & Ht & Hlookup)|(i & r & Hi & Hr & _)].
  - exists t. split_and!; [done | |].
    + intros j col_name Hj. split.
      * apply getitem_present. by rewrite Hlookup, (NoDup_last_index _ _ _ Hnd Hj).
      * apply (column_fields rows j (length header) Hall). by eapply lookup_lt_Some.
    + intros col_name Hnot. rewrite Hlookup.
      destruct (last_index col_name header) as [j|] eqn:Hlast; [|done].
      apply last_index_Some in Hlast as [Hj _]. exfalso.
      apply Hnot. by eapply list_elem_of_lookup_2.
  - exfalso. rewrite Forall_lookup in Hall. by apply Hr, (Hall i).
Qed.

Lemma read_csv_columns_witness :
  ∃ t : data_table,
    read_csv [["A"; "B"]; ["1"; "x"]; ["2"; "y"]] = Ok t
    ∧ DataTable.__getitem__ "A" t = (Ok [VStr "1"; VStr "2"], t)
    ∧ DataTable.__getitem__ "B" t = (Ok [VStr "x"; VStr "y"], t).
Proof.
  destruct (read_csv_columns ["A"; "B"] [["1"; "x"]; ["2"; "y"]]) as (t & Ht & Hcols & _).
  - apply (bool_decide_unpack _). vm_compute. exact I.
  - apply (bool_decide_unpack _). vm_compute. exact I.
  - exists t. split; [exact Ht |]. split.
    + exact (proj1 (Hcols 0%nat "A" eq_refl)).
    + exact (proj1 (Hcols 1%nat "B" eq_refl)).
Defined.

(** C9. For a file with a data row whose number of fields differs from
    the header's, [read_csv] fails with [MalformedRow], reporting the
    header's field count and the first such row with its field count;
    no table is returned. *)
Theorem read_csv_malformed (header : list string) (rows : list (list string)) :
  Exists (λ row_values, length row_values ≠ length header) rows →
  ∃ i row_values,
    rows !! i = Some row_values
    ∧ length row_values ≠ length header
    ∧ (∀ j r, rows !! j = Some r → (j < i)%nat → length r = length header)
    ∧ read_csv (header :: rows)
      = Raise (MalformedRow (length header) (length row_values) row_values)
    ∧ ¬ ∃ t, read_csv (header :: rows) = Ok t.
Proof.
  intros Hbad.
  destruct (read_csv_cases header rows) as [(Hall & _)|(i & r & Hi & Hr & Hlt & Hraise)].
  - exfalso. apply Exists_exists in Hbad as (r & Hin & Hr).
    rewrite Forall_forall in Hall. by apply Hr, Hall.
  - exists i, r. split_and!; [done .. |]. intros [t Ht]. congruence.
Qed.

Lemma read_csv_malformed_witness :
  ∃ i row_values,
    [["1"; "x"; "7"]; ["2"; "y"]] !! i = Some row_values
    ∧ length row_values ≠ length ["A"; "B"; "C"]
    ∧ (∀ j r, [["1"; "x"; "7"]; ["2"; "y"]] !! j = Some r → (j < i)%nat →
         length r = length ["A"; "B"; "C"])
    ∧ read_csv [["A"; "B"; "C"]; ["1"; "x"; "7"]; ["2"; "y"]]
      = Raise (MalformedRow (length ["A"; "B"; "C"]) (length row_values) row_values)
    ∧ ¬ ∃ t, read_csv [["A"; "B"; "C"]; ["1"; "x"; "7"]; ["2"; "y"]] = Ok t.
Proof.
  apply (read_csv_malformed ["A"; "B"; "C"] [["1"; "x"; "7"]; ["2"; "y"]]).
  apply (bool_decide_unpack _). vm_compute. exact I.
Defined.

(** C10. Whatever names the header holds, repeated or not, a file
    whose data rows all have the header's number of fields loads
    without error, and the table binds a name to a list exactly when
    that list is the column under the name's last occurrence in the
    header: the columns under its earlier occurrences are bound to no
    name. *)
Theorem read_csv_duplicate_names (header : list string) (rows : list (list string)) :
  Forall (λ row_values, length row_values = length header) rows →
  ∃ t : data_table,
    read_csv (header :: rows) = Ok t
    ∧ ∀ col_name values,
        t !! col_name = Some values
        ↔ ∃ j, header !! j = Some col_name
               ∧ (∀ j', (j < j')%nat → header !! j' ≠ Some col_name)
               ∧ values = column j rows.
Proof.
  intros Hall.
  destruct (read_csv_cases header rows) as [(_ & t & Ht & Hlookup)|(i & r & Hi & Hr & _)].
  - exists t. split; [done |]. intros col_name values. rewrite Hlookup. split.
    + destruct (last_index col_name header) as [j|] eqn:Hlast; [|done].
      intros [= <-]. apply last_index_Some in Hlast as [Hj Hlater]. by exists j.
    + intros (j & Hj & Hlater & ->).
      by rewrite (proj2 (last_index_Some col_name header j) (conj Hj Hlater)).
  - exfalso. rewrite Forall_lookup in Hall. by apply Hr, (Hall i).
Qed.

Lemma read_csv_duplicate_names_witness :
  ∃ t : data_table,
    read_csv [["A"; "B"; "A"]; ["1"; "x"; "2"]; ["3"; "y"; "4"]] = Ok t
    ∧ t !! "A" = Some [VStr "2"; VStr "4"]
    ∧ t !! "A" ≠ Some [VStr "1"; VStr "3"].
Proof.
  destruct (read_csv_duplicate_names ["A"; "B"; "A"] [["1"; "x"; "2"]; ["3"; "y"; "4"]])
    as (t & Ht & Hbind).
  - apply (bool_decide_unpack _). vm_compute. exact I.
  - assert (HA : t !! "A" = Some [VStr "2"; VStr "4"]).
    { apply Hbind. exists 2%nat. split_and!; [done | | done].
      intros [|[|[|j']]] Hlt; (lia || done). }
    exists t. split_and!; [exact Ht | exact HA |]. rewrite HA. discriminate.
Defined.

(** C10, as stated, fails: a header that holds the same name twice does
    not make the file load; a data row with fewer fields than the
    header still aborts the load with [MalformedRow]. *)
Lemma read_csv_duplicate_names_counterexample :
  (∃ j j', j ≠ j' ∧ ["A"; "A"] !! j = Some "A" ∧ ["A"; "A"] !! j' = Some "A")
  ∧ read_csv [["A"; "A"]; ["1"]] = Raise (MalformedRow 2 1 ["1"])
  ∧ ¬ ∃ t : data_table, read_csv [["A"; "A"]; ["1"]] = Ok t.
Proof.
  assert (H : read_csv [["A"; "A"]; ["1"]] = Raise (MalformedRow 2 1 ["1"]))
    by (vm_compute; reflexivity).
  split_and!; [by exists 0%nat, 1%nat | exact H |].
  intros [t Ht]. rewrite H in Ht. discriminate.
Qed.

(** ** Further properties of the table methods *)

Lemma validate_state (t : data_table) col_name : (DataTable._validate_col_name col_name t).2 = t.
Proof. unfold DataTable._validate_col_name. by destruct (t !! col_name). Qed.

(** X1. Binding a column never fails, whatever was or was not bound
    before and whatever the length of the new list; reading the column
    back returns the list just bound, and every other column reads as
    it did before. *)
Theorem setitem_getitem (t : data_table) (col_name : string) (values : list value) :
  (DataTable.__setitem__ col_name values t).1 = Ok ()
  ∧ (DataTable.__getitem__ col_name (DataTable.__setitem__ col_name values t).2).1 = Ok values
  ∧ ∀ other, other ≠ col_name →
      (DataTable.__getitem__ other (DataTable.__setitem__ col_name values t).2).1
      = (DataTable.__getitem__ other t).1.
Proof.
  unfold DataTable.__setitem__, data_table_setitem. cbn [fst snd]. split_and!; [done | |].
  - by rewrite (getitem_present _ _ values) by apply lookup_insert_eq.
  - intros other Hne.
    assert (Hlook : <[col_name := values]> t !! other = t !! other).
    { apply lookup_insert_ne. congruence. }
    unfold DataTable.__getitem__, mbind, method_bind.
    unfold DataTable._validate_col_name, data_table_getitem.
    rewrite Hlook. destruct (t !! other) as [vs|] eqn:Hother; [|done].
    by rewrite Hlook, Hother.
Qed.

(** X4. Reading and aggregating never write: [get], [count], [sum] and
    [avg] leave the table exactly as it was, whether they succeed or
    raise. *)
Theorem aggregations_read_only (t : data_table) (col_name group_by : string) :
  (DataTable.__getitem__ col_name t).2 = t
  ∧ (DataTable.count group_by t).2 = t
  ∧ (DataTable.sum col_name group_by t).2 = t
  ∧ (DataTable.avg col_name group_by t).2 = t.
Proof.
  destruct (t !! col_name) as [cs|] eqn:Hc; destruct (t !! group_by) as [gs|] eqn:Hg.
  - rewrite (getitem_present _ _ _ Hc), (count_present _ _ _ Hg),
      (sum_present _ _ _ _ _ Hc Hg), (avg_present _ _ _ _ _ Hc Hg). done.
  - rewrite (getitem_present _ _ _ Hc).
    unfold DataTable.count, DataTable.sum, DataTable.avg, mbind, method_bind.
    by rewrite (validate_present _ _ _ Hc), !(validate_absent _ _ Hg).
  - rewrite (count_present _ _ _ Hg).
    unfold DataTable.__getitem__, DataTable.sum, DataTable.avg, mbind, method_bind.
    by rewrite !(validate_absent _ _ Hc).
  - unfold DataTable.__getitem__, DataTable.count, DataTable.sum, DataTable.avg,
      mbind, method_bind.
    by rewrite !(validate_absent _ _ Hc), ?(validate_absent _ _ Hg).
Qed.

Lemma mapM_outcome_length (func : value → outcome value) xs ys :
  mapM func xs = Ok ys →
  length ys = length xs
  ∧ ∀ i x, xs !! i = Some x → ∃ y, func x = Ok y ∧ ys !! i = Some y.
Proof.
  intros Hm.
  destruct (mapM_outcome_cases func xs) as [(ys' & Hys & Hall)|(i & x & e & Hr & _)];
    [|congruence].
  rewrite Hys in Hm. injection Hm as ->. split.
  - symmetry. by eapply Forall2_length.
  - intros i x Hi. destruct (Forall2_lookup_l _ _ _ _ _ Hall Hi) as (y & Hy & Hf). eauto.
Qed.

Lemma mapM_outcome_total (func : value → outcome value) xs :
  Forall (λ x, succeeds (func x)) xs → ∃ ys, mapM func xs = Ok ys.
Proof.
  intros Hall.
  destruct (mapM_outcome_cases func xs) as [(ys & Hys & _)|(i & x & e & Hr & Hi & He & _)];
    [by eauto |].
  rewrite Forall_lookup in Hall. specialize (Hall i x Hi). by rewrite He in Hall.
Qed.

(** X2. When a transform that does not write to the table succeeds on
    every element of a present column, [map] succeeds and rebinds the
    column to the element-wise images: same length, same order, entry
    [i] the image of the old entry [i]; every other column is
    untouched. *)
Theorem map_success (t : data_table) (col_name : string)
    (func : value → method value) (xs : list value) :
  t !! col_name = Some xs →
  (∀ x s, (func x s).2 = s) →
  Forall (λ x, succeeds (func x t).1) xs →
  ∃ ys,
    DataTable.map col_name func t = (Ok (), <[col_name := ys]> t)
    ∧ length ys = length xs
    ∧ (∀ i x, xs !! i = Some x → ∃ y, (func x t).1 = Ok y ∧ ys !! i = Some y)
    ∧ (∀ other, other ≠ col_name →
         (DataTable.map col_name func t).2 !! other = t !! other).
Proof.
  intros Hc Hro Hall.
  destruct (mapM_outcome_total (λ x, (func x t).1) xs Hall) as [ys Hys].
  destruct (mapM_outcome_length _ xs ys Hys) as [Hlen Himg].
  exists ys. rewrite (map_present_read_only _ _ _ _ Hc Hro), Hys. split_and!; [done .. |].
  intros other Hne. cbn. rewrite lookup_insert_ne; [done | congruence].
Qed.

Lemma map_success_witness :
  ∃ ys,
    DataTable.map "A"
      (of_function (λ x, match x with VInt n => Ok (VInt (n * n)) | _ => Raise (Raised x) end))
      test_table = (Ok (), <["A" := ys]> test_table)
    ∧ length ys = length [VInt 1; VInt 2; VInt 3; VInt 4; VInt 5]
    ∧ (∀ i x, [VInt 1; VInt 2; VInt 3; VInt 4; VInt 5] !! i = Some x →
         ∃ y, (of_function
                 (λ x, match x with VInt n => Ok (VInt (n * n)) | _ => Raise (Raised x) end)
                 x test_table).1 = Ok y
              ∧ ys !! i = Some y)
    ∧ (∀ other, other ≠ "A" →
         (DataTable.map "A"
            (of_function
               (λ x, match x with VInt n => Ok (VInt (n * n)) | _ => Raise (Raised x) end))
            test_table).2 !! other = test_table !! other).
Proof.
  apply (map_success test_table "A"
           (of_function
              (λ x, match x with VInt n => Ok (VInt (n * n)) | _ => Raise (Raised x) end))
           [VInt 1; VInt 2; VInt 3; VInt 4; VInt 5]);
    [vm_compute; reflexivity | reflexivity |].
  repeat constructor.
Defined.

Lemma mapM_outcome_compose (f g : value → outcome value) xs ys :
  mapM f xs = Ok ys → mapM (λ x, f x ≫= g) xs = mapM g ys.
Proof.
  revert ys. induction xs as [|x xs IH]; intros ys Hm.
  - cbn in Hm. by injection Hm as <-.
  - cbn [mapM] in Hm. destruct (f x) as [y|e] eqn:Hx; [|done]. cbn in Hm.
    destruct (mapM f xs) as [ys'|e] eqn:Hxs; [|done]. cbn in Hm. injection Hm as <-.
    cbn [mapM]. rewrite Hx. cbn. by rewrite (IH ys').
Qed.

(** X3. Two maps in a row with transforms that are functions of the
    element alone fuse: when the first succeeds on every element of a
    present column and the second on every image, mapping with the
    first and then with the second leaves the table that a single map
    with their composition leaves. *)
Theorem map_map_fusion (t : data_table) (col_name : string)
    (f g : value → outcome value) (xs ys zs : list value) :
  t !! col_name = Some xs →
  mapM f xs = Ok ys →
  mapM g ys = Ok zs →
  (DataTable.map col_name (of_function f) ;; DataTable.map col_name (of_function g)) t
  = DataTable.map col_name (of_function (λ x, f x ≫= g)) t
  ∧ (DataTable.map col_name (of_function (λ x, f x ≫= g)) t).2 !! col_name = Some zs.
Proof.
  intros Hc Hf Hg.
  rewrite (map_present_function _ _ (λ x, f x ≫= g) _ Hc),
    (mapM_outcome_compose f g xs ys Hf), Hg.
  rewrite method_bind_unfold, (map_present_function _ _ f _ Hc), Hf.
  rewrite (map_present_function _ _ g ys) by apply lookup_insert_eq. rewrite Hg.
  rewrite insert_insert_eq. split; [done | apply lookup_insert_eq].
Qed.

Lemma map_map_fusion_witness :
  (DataTable.map "A" (of_function (λ x, Ok (VStr "n")))
   ;; DataTable.map "A" (of_function (λ x, Ok VNone))) test_table
  = DataTable.map "A" (of_function (λ x, Ok (VStr "n") ≫= λ x, Ok VNone)) test_table
  ∧ (DataTable.map "A" (of_function (λ x, Ok (VStr "n") ≫= λ x, Ok VNone)) test_table).2
    !! "A" = Some [VNone; VNone; VNone; VNone; VNone].
Proof.
  apply (map_map_fusion test_table "A" (λ x, Ok (VStr "n")) (λ x, Ok VNone)
           [VInt 1; VInt 2; VInt 3; VInt 4; VInt 5]
           [VStr "n"; VStr "n"; VStr "n"; VStr "n"; VStr "n"]);
    vm_compute; reflexivity.
Defined.

(** The dictionary of ints, as the dictionary of numbers it is. *)
Lemma get_fmap_NInt (d : list (value * Z)) k :
  Dict.get ((λ e, (e.1, NInt e.2)) <$> d) k = NInt <$> Dict.get d k.
Proof.
  induction d as [|[k' v'] d IH]; [done |].
  rewrite fmap_cons. cbn. by case_decide.
Qed.

Lemma set_fmap_NInt (d : list (value * Z)) k v :
  Dict.set ((λ e, (e.1, NInt e.2)) <$> d) k (NInt v)
  = (λ e, (e.1, NInt e.2)) <$> Dict.set d k v.
Proof.
  induction d as [|[k' v'] d IH]; [done |].
  rewrite fmap_cons. cbn. case_decide; [done |]. rewrite fmap_cons. cbn. by rewrite IH.
Qed.

Lemma iadd_number_ints (d : list (value * Z)) g x :
  defaultdict_iadd_number ((λ e, (e.1, NInt e.2)) <$> d) g (NInt x)
  = Ok ((λ e, (e.1, NInt e.2)) <$> defaultdict_iadd d g x).
Proof.
  unfold defaultdict_iadd_number, defaultdict_getitem_number, defaultdict_iadd,
    defaultdict_getitem.
  rewrite get_fmap_NInt. destruct (Dict.get d g) as [v|]; cbn.
  - by rewrite set_fmap_NInt.
  - change (NInt 0) with (NInt 0) at 1. rewrite (set_fmap_NInt d g 0), set_fmap_NInt.
    do 3 f_equal.
Qed.

(** Adding up ints never fails and is the accumulation of [count]'s
    kind, over the integers. *)
Lemma accumulate_number_ints (rows : list (value * Z)) (d : list (value * Z)) :
  accumulate_number ((λ e, (e.1, NInt e.2)) <$> rows) ((λ e, (e.1, NInt e.2)) <$> d)
  = Ok ((λ e, (e.1, NInt e.2)) <$> accumulate rows d).
Proof.
  revert d. induction rows as [|[g x] rows IH]; intros d; [done |].
  rewrite fmap_cons. cbn [accumulate_number fst snd]. rewrite iadd_number_ints. cbn.
  apply IH.
Qed.

Lemma zip_fmap_NInt (gs : list value) (zs : list Z) :
  zip gs (NInt <$> zs) = (λ e, (e.1, NInt e.2)) <$> zip gs zs.
Proof.
  revert zs. induction gs as [|g gs IH]; intros [|z zs]; [done .. |].
  cbn. by rewrite <- IH.
Qed.

(** The loop of [sum] over paired cells that are the ints [zs]. *)
Lemma sum_loop_ints cs gs (zs : list Z) :
  take (length gs) cs = VInt <$> zs →
  DataTable.sum_loop (zip cs gs) []
  = Ok ((λ e, (e.1, NInt e.2)) <$> accumulate (zip gs zs) []).
Proof.
  intros Hzs. rewrite (sum_loop_denotes cs gs (NInt <$> zs)).
  - rewrite zip_fmap_NInt. apply (accumulate_number_ints _ []).
  - rewrite Hzs. clear. induction zs as [|z zs IH]; constructor; [constructor | done].
Qed.

Lemma mapM_outcome_Forall (P : value → Prop) (func : value → outcome value) xs ys :
  (∀ x y, func x = Ok y → P y) → mapM func xs = Ok ys → Forall P ys.
Proof.
  intros HP Hm.
  destruct (mapM_outcome_cases func xs) as [(ys' & Hys & Hall)|(i & x & e & Hr & _)];
    [|congruence].
  rewrite Hys in Hm. injection Hm as ->. clear Hys.
  induction Hall as [|x y xs ys Hxy _ IH]; constructor; [by eapply HP | done].
Qed.

Lemma ints_of_values (l : list value) :
  Forall (λ v, ∃ n, v = VInt n) l → ∃ zs, l = VInt <$> zs.
Proof.
  induction 1 as [|v l [n ->] _ [zs ->]]; [by exists [] | by exists (n :: zs)].
Qed.



(** ** Totals and key order of the grouped results *)

Lemma dict_total_set d k v :
  dict_total (Dict.set d k v) = dict_total d - default 0 (Dict.get d k) + v.
Proof.
  unfold dict_total. induction d as [|[k' v'] d IH]; cbn.
  - lia.
  - destruct (decide (k' = k)) as [->|Hne]; cbn; [lia |]. rewrite IH. lia.
Qed.

Lemma dict_total_iadd d g x : dict_total (defaultdict_iadd d g x) = dict_total d + x.
Proof.
  unfold defaultdict_iadd, defaultdict_getitem.
  destruct (Dict.get d g) as [v|] eqn:Hg.
  - rewrite dict_total_set, Hg. cbn. lia.
  - rewrite !dict_total_set, dict_get_set_eq, Hg. cbn. lia.
Qed.

Lemma dict_total_accumulate rows d :
  dict_total (accumulate rows d) = dict_total d + list_total rows.*2.
Proof.
  revert d. induction rows as [|[g x] rows IH]; intros d.
  - unfold accumulate, list_total. cbn [foldl fmap list_fmap foldr]. lia.
  - change (accumulate ((g, x) :: rows) d) with (accumulate rows (defaultdict_iadd d g x)).
    rewrite IH, dict_total_iadd. unfold list_total. rewrite fmap_cons. cbn [foldr snd]. lia.
Qed.

Lemma dict_elem_of_get {V} (d : list (value * V)) k v :
  NoDup (Dict.keys d) → (k, v) ∈ d → Dict.get d k = Some v.
Proof.
  unfold Dict.keys. induction d as [|[k' v'] d IH]; intros Hnd Hin.
  - by apply elem_of_nil in Hin.
  - rewrite fmap_cons in Hnd. apply NoDup_cons in Hnd as [Hk' Hnd]. cbn.
    apply elem_of_cons in Hin as [[= <- <-]|Hin]; [by rewrite decide_True |].
    rewrite decide_False; [by apply IH |].
    intros ->. apply Hk'. apply list_elem_of_fmap. by exists (k, v).
Qed.

Lemma keys_iadd_list d g x :
  Dict.keys (defaultdict_iadd d g x)
  = if decide (g ∈ Dict.keys d) then Dict.keys d else Dict.keys d ++ [g].
Proof.
  unfold defaultdict_iadd, defaultdict_getitem.
  destruct (Dict.get d g) as [v|] eqn:Hg.
  - by rewrite dict_keys_set.
  - rewrite !dict_keys_set. apply dict_get_None in Hg.
    rewrite (decide_False (P := g ∈ Dict.keys d)) by done.
    rewrite decide_True; [done |]. apply elem_of_app. right. by apply list_elem_of_singleton.
Qed.

Lemma keys_accumulate_first rows d :
  Dict.keys (accumulate rows d)
  = Dict.keys d ++ filter (λ k, k ∉ Dict.keys d) (first_occurrences rows.*1).
Proof.
  revert d. induction rows as [|[g x] rows IH]; intros d.
  - cbn. by rewrite app_nil_r.
  - change (accumulate ((g, x) :: rows) d) with (accumulate rows (defaultdict_iadd d g x)).
    rewrite IH, keys_iadd_list, fmap_cons. cbn [fst first_occurrences].
    rewrite filter_cons. destruct (decide (g ∈ Dict.keys d)) as [Hin|Hnin].
    + rewrite (decide_False (P := g ∉ Dict.keys d)) by (intros Hn; by apply Hn). f_equal.
      rewrite list_filter_filter. apply list_filter_iff.
      intros k. split; [| by intros [? ?]]. intros Hk. split; (done || by intros ->).
    + rewrite (decide_True (P := g ∉ Dict.keys d)) by done. rewrite <- app_assoc. cbn. do 2 f_equal.
      rewrite list_filter_filter. apply list_filter_iff.
      intros k. rewrite elem_of_app, list_elem_of_singleton. split.
      * intros Hk. split; [intros ?; apply Hk; by left | intros ?; apply Hk; by right].
      * intros [Hk1 Hk2] [?|?]; done.
Qed.

Lemma list_total_ones (gs : list value) :
  list_total ((λ g, (g, 1)) <$> gs).*2 = Z.of_nat (length gs).
Proof.
  unfold list_total. induction gs as [|g gs IH]; [done |].
  rewrite !fmap_cons. cbn [snd foldr length]. rewrite IH. lia.
Qed.

(** X5. On a table that has column [group_by], every count [count]
    returns is at least one and the counts add up to the number of rows
    of the column. *)
Theorem count_total (t : data_table) (group_by : string) (gs : list value) :
  t !! group_by = Some gs →
  ∃ result,
    DataTable.count group_by t = (Ok result, t)
    ∧ Forall (λ entry, 1 ≤ entry.2) result
    ∧ dict_total result = Z.of_nat (length gs).
Proof.
  intros Hg. exists (DataTable.count_loop gs []).
  split; [by apply count_present |].
  assert (Hfst : ((λ g : value, (g, 1)) <$> gs).*1 = gs).
  { rewrite <- list_fmap_compose. apply list_fmap_id. }
  split.
  - apply Forall_forall. intros [k v] Hin. cbn.
    assert (Hnd : NoDup (Dict.keys (DataTable.count_loop gs []))).
    { rewrite count_loop_accumulate. apply NoDup_accumulate. constructor. }
    pose proof (dict_elem_of_get _ _ _ Hnd Hin) as Hget.
    assert (Hk : k ∈ gs).
    { assert (Hkeys : k ∈ Dict.keys (DataTable.count_loop gs []))
        by (apply dict_get_is_Some; eauto).
      rewrite count_loop_accumulate in Hkeys.
      apply keys_accumulate in Hkeys as [Hkeys|Hkeys]; [by rewrite Hfst in Hkeys |].
      by apply elem_of_nil in Hkeys. }
    rewrite (count_loop_get _ _ Hk) in Hget. injection Hget as <-.
    pose proof (occurrences_pos _ _ Hk). lia.
  - rewrite count_loop_accumulate, dict_total_accumulate, list_total_ones. done.
Qed.

Lemma count_total_witness :
  ∃ result,
    DataTable.count "B" test_table = (Ok result, test_table)
    ∧ Forall (λ entry, 1 ≤ entry.2) result
    ∧ dict_total result = Z.of_nat (length [VStr "x"; VStr "y"; VStr "x"; VStr "z"; VStr "z"]).
Proof. apply (count_total test_table "B"). vm_compute. reflexivity. Defined.

(** X6. On a table that has both columns, when the cells of
    [col_name] that are paired with a group cell (the first
    [min(len(col), len(group))] of them) are the ints [zs], [sum]
    succeeds, every sum it returns is an int, and the sums add up to the
    exact total of [zs]. *)
Theorem sum_total (t : data_table) (col_name group_by : string)
    (cs gs : list value) (zs : list Z) :
  t !! col_name = Some cs →
  t !! group_by = Some gs →
  take (length gs) cs = VInt <$> zs →
  ∃ totals : list (value * Z),
    DataTable.sum col_name group_by t = (Ok ((λ e, (e.1, NInt e.2)) <$> totals), t)
    ∧ dict_total totals = list_total zs
    ∧ length zs = (length cs `min` length gs)%nat.
Proof.
  intros Hc Hg Hzs.
  assert (Hlen : length zs = (length cs `min` length gs)%nat).
  { apply (f_equal length) in Hzs. rewrite length_take, length_fmap in Hzs. lia. }
  exists (accumulate (zip gs zs) []). split_and!; [| | done].
  - by rewrite (sum_present _ _ _ _ _ Hc Hg), (sum_loop_ints cs gs zs Hzs).
  - rewrite dict_total_accumulate, snd_zip_take, take_ge by lia. cbn. lia.
Qed.

Lemma sum_total_witness :
  ∃ totals : list (value * Z),
    DataTable.sum "A" "B" test_table = (Ok ((λ e, (e.1, NInt e.2)) <$> totals), test_table)
    ∧ dict_total totals = list_total [1; 2; 3; 4; 5]
    ∧ length [1; 2; 3; 4; 5]
      = (length [VInt 1; VInt 2; VInt 3; VInt 4; VInt 5]
         `min` length [VStr "x"; VStr "y"; VStr "x"; VStr "z"; VStr "z"])%nat.
Proof.
  apply (sum_total test_table "A" "B"); vm_compute; reflexivity.
Defined.

(** The keys of a successful accumulation of numbers are those of the
    accumulation of any ints over the same keys. *)
Lemma keys_accumulate_number (rows : list (value * number)) (rows' : list (value * Z)) d d' r :
  rows.*1 = rows'.*1 → Dict.keys d = Dict.keys d' →
  accumulate_number rows d = Ok r →
  Dict.keys r = Dict.keys (accumulate rows' d').
Proof.
  revert rows' d d'. induction rows as [|[g x] rows IH]; intros [|[g' x'] rows'] d d' Hr Hd Hacc;
    try done.
  - cbn in Hacc. by injection Hacc as <-.
  - rewrite !fmap_cons in Hr. cbn [fst] in Hr. injection Hr as <- Hr.
    cbn [accumulate_number] in Hacc. pose proof (iadd_number_cases d g x) as Hcase.
    destruct (py_add (default (NInt 0) (Dict.get d g)) x) as [t1|e].
    2:{ by rewrite Hcase in Hacc. }
    destruct Hcase as (d1 & Hd1 & _ & _ & Hkeys). rewrite Hd1 in Hacc. cbn in Hacc.
    change (Dict.keys r = Dict.keys (accumulate rows' (defaultdict_iadd d' g x'))).
    apply (IH rows' d1); [done | | done]. by rewrite Hkeys, keys_iadd_list, Hd.
Qed.

Lemma keys_accumulate_empty rows :
  Dict.keys (accumulate rows []) = first_occurrences rows.*1.
Proof.
  rewrite keys_accumulate_first. cbn [Dict.keys fmap list_fmap app].
  induction (first_occurrences rows.*1) as [|k l IH]; [done |].
  rewrite filter_cons_True by apply not_elem_of_nil. by rewrite IH.
Qed.

(** X8. The keys of [count]'s result come in the order in which the
    values first appear in the column: the key list is the column with
    every repetition of an earlier value removed. *)
Theorem count_key_order (t : data_table) (group_by : string) (gs : list value) :
  t !! group_by = Some gs →
  ∃ result,
    DataTable.count group_by t = (Ok result, t)
    ∧ Dict.keys result = first_occurrences gs.
Proof.
  intros Hg. exists (DataTable.count_loop gs []). split; [by apply count_present |].
  rewrite count_loop_accumulate, keys_accumulate_empty.
  by rewrite <- list_fmap_compose, list_fmap_id.
Qed.

Lemma count_key_order_witness :
  ∃ result,
    DataTable.count "B" test_table = (Ok result, test_table)
    ∧ Dict.keys result = first_occurrences [VStr "x"; VStr "y"; VStr "x"; VStr "z"; VStr "z"].
Proof. apply (count_key_order test_table "B"). vm_compute. reflexivity. Defined.

(** X7. When the group column is no longer than the summed column and
    [sum] succeeds, [sum] and [count] return dictionaries with the same
    keys in the same order. *)
Theorem sum_count_same_keys (t : data_table) (col_name group_by : string)
    (cs gs : list value) (sums : list (value * number)) :
  t !! col_name = Some cs →
  t !! group_by = Some gs →
  (length gs ≤ length cs)%nat →
  (DataTable.sum col_name group_by t).1 = Ok sums →
  ∃ counts,
    DataTable.count group_by t = (Ok counts, t)
    ∧ Dict.keys sums = Dict.keys counts.
Proof.
  intros Hc Hg Hlen Hsum. rewrite (sum_present _ _ _ _ _ Hc Hg) in Hsum. cbn [fst] in Hsum.
  exists (DataTable.count_loop gs []). split; [by apply count_present |].
  apply sum_loop_Ok in Hsum as (ns & Hns & Hacc).
  rewrite count_loop_accumulate.
  apply (keys_accumulate_number (zip gs ns) _ [] [] sums); [| done | done].
  apply Forall2_length in Hns. rewrite length_take in Hns.
  rewrite fst_zip_take, take_ge by lia.
  by rewrite <- list_fmap_compose, list_fmap_id.
Qed.

Lemma sum_count_same_keys_witness :
  ∃ counts,
    DataTable.count "B" test_table = (Ok counts, test_table)
    ∧ Dict.keys [(VStr "x", NInt 4); (VStr "y", NInt 2); (VStr "z", NInt 9)]
      = Dict.keys counts.
Proof.
  apply (sum_count_same_keys test_table "A" "B"
           [VInt 1; VInt 2; VInt 3; VInt 4; VInt 5]
           [VStr "x"; VStr "y"; VStr "x"; VStr "z"; VStr "z"]);
    [vm_compute; reflexivity | vm_compute; reflexivity | cbn; lia | vm_compute; reflexivity].
Defined.

(** ** The shape of a loaded table *)

Lemma last_index_elem_of col_name header :
  col_name ∈ header ↔ is_Some (last_index col_name header).
Proof.
  split.
  - intros [j Hj]%list_elem_of_lookup_1.
    destruct (last_index col_name header) as [j'|] eqn:Hlast; [by eauto |].
    by apply (last_index_None _ _ Hlast) in Hj.
  - intros [j [Hj _]%last_index_Some]. by eapply list_elem_of_lookup_2.
Qed.

Lemma column_text j rows : Forall (λ v, ∃ s, v = VStr s) (column j rows).
Proof.
  unfold column. induction rows as [|r rows IH]; [constructor |].
  cbn [omap list_omap]. destruct (r !! j) as [s|]; cbn; [|done].
  constructor; [by eauto | done].
Qed.

(** X10. A file whose data rows all have the header's number of
    fields loads into a table whose column names are exactly the
    header's names and whose columns all have one entry per data row,
    every entry text: the loader establishes the equal-length
    invariant of the table. *)
Theorem read_csv_shape (header : list string) (rows : list (list string)) :
  Forall (λ row_values, length row_values = length header) rows →
  ∃ t : data_table,
    read_csv (header :: rows) = Ok t
    ∧ dom t = list_to_set header
    ∧ ∀ col_name values, t !! col_name = Some values →
        length values = length rows ∧ Forall (λ v, ∃ s, v = VStr s) values.
Proof.
  intros Hall.
  destruct (read_csv_cases header rows) as [(_ & t & Ht & Hlookup)|(i & r & Hi & Hr & _)].
  2:{ exfalso. rewrite Forall_lookup in Hall. by apply Hr, (Hall i). }
  exists t. split_and!; [done | |].
  - apply set_eq. intros col_name.
    rewrite elem_of_dom, elem_of_list_to_set, last_index_elem_of, Hlookup.
    by rewrite fmap_is_Some.
  - intros col_name values. rewrite Hlookup.
    destruct (last_index col_name header) as [j|] eqn:Hlast; [|done].
    intros [= <-]. apply last_index_Some in Hlast as [Hj _]. split.
    + apply (column_fields rows j (length header) Hall). by eapply lookup_lt_Some.
    + apply column_text.
Qed.

Lemma read_csv_shape_witness :
  ∃ t : data_table,
    read_csv [["A"; "B"]; ["1"; "x"]; ["2"; "y"]] = Ok t
    ∧ dom t = list_to_set ["A"; "B"]
    ∧ ∀ col_name values, t !! col_name = Some values →
        length values = length [["1"; "x"]; ["2"; "y"]]
        ∧ Forall (λ v, ∃ s, v = VStr s) values.
Proof.
  apply (read_csv_shape ["A"; "B"] [["1"; "x"]; ["2"; "y"]]).
  apply (bool_decide_unpack _). vm_compute. exact I.
Defined.

(** X11. A freshly loaded table holds text only, so [sum] over any two
    of its columns fails as soon as the file has a data row: it raises
    [NonNumericValue] for the first data row's field under the summed
    name (under its last occurrence in the header), and the table
    stays as loaded. *)
Theorem sum_after_load (header : list string) (row_values : list string)
    (rows : list (list string)) (col_name group_by : string) :
  Forall (λ r, length r = length header) (row_values :: rows) →
  col_name ∈ header →
  group_by ∈ header →
  ∃ (t : data_table) j col_value,
    read_csv (header :: row_values :: rows) = Ok t
    ∧ header !! j = Some col_name
    ∧ (∀ j', (j < j')%nat → header !! j' ≠ Some col_name)
    ∧ row_values !! j = Some col_value
    ∧ DataTable.sum col_name group_by t = (Raise (NonNumericValue (VStr col_value)), t).
Proof.
  intros Hall [j Hlast]%last_index_elem_of [j' Hlast']%last_index_elem_of.
  destruct (read_csv_cases header (row_values :: rows))
    as [(_ & t & Ht & Hlookup)|(i & r & Hi & Hr & _)].
  2:{ exfalso. rewrite Forall_lookup in Hall. by apply Hr, (Hall i). }
  pose proof (Hlookup col_name) as Hc. pose proof (Hlookup group_by) as Hg.
  rewrite Hlast in Hc. rewrite Hlast' in Hg. cbn [fmap option_fmap option_map] in Hc, Hg.
  apply last_index_Some in Hlast as [Hj Hlater].
  apply last_index_Some in Hlast' as [Hj' _].
  apply Forall_cons in Hall as [Hrow _].
  destruct (lookup_lt_is_Some_2 row_values j) as [s Hs];
    [apply lookup_lt_Some in Hj; lia |].
  destruct (lookup_lt_is_Some_2 row_values j') as [s' Hs'];
    [apply lookup_lt_Some in Hj'; lia |].
  exists t, j, s. split_and!; [done .. |].
  rewrite (sum_present _ _ _ _ _ Hc Hg).
  by rewrite (column_cons _ _ _ _ Hs), (column_cons _ _ _ _ Hs').
Qed.

Lemma sum_after_load_witness :
  ∃ (t : data_table) j col_value,
    read_csv [["A"; "B"]; ["1"; "x"]; ["2"; "y"]] = Ok t
    ∧ ["A"; "B"] !! j = Some "A"
    ∧ (∀ j', (j < j')%nat → ["A"; "B"] !! j' ≠ Some "A")
    ∧ ["1"; "x"] !! j = Some col_value
    ∧ DataTable.sum "A" "B" t = (Raise (NonNumericValue (VStr col_value)), t).
Proof.
  apply (sum_after_load ["A"; "B"] ["1"; "x"] [["2"; "y"]] "A" "B");
    apply (bool_decide_unpack _); vm_compute; exact I.
Defined.

(** ** The report client: titles *)

Lemma dict_of_pairs_snoc {V} (pairs : list (value * V)) p :
  foldl (λ d kv, Dict.set d kv.1 kv.2) [] (pairs ++ [p])
  = Dict.set (foldl (λ d kv, Dict.set d kv.1 kv.2) [] pairs) p.1 p.2.
Proof. by rewrite foldl_app. Qed.

Lemma dict_of_pairs_keys {V} (pairs : list (value * V)) :
  NoDup (Dict.keys (foldl (λ d kv, Dict.set d kv.1 kv.2) [] pairs))
  ∧ ∀ k, k ∈ Dict.keys (foldl (λ d kv, Dict.set d kv.1 kv.2) [] pairs) ↔ k ∈ pairs.*1.
Proof.
  induction pairs as [|p pairs [IHnd IHin]] using rev_ind.
  - split; [constructor | done].
  - rewrite dict_of_pairs_snoc. split; [by apply dict_NoDup_keys_set |].
    intros k. rewrite dict_elem_of_keys_set, IHin, fmap_app, elem_of_app.
    cbn. rewrite list_elem_of_singleton. tauto.
Qed.

Lemma dict_of_pairs_last {V} (pairs : list (value * V)) i k v :
  pairs !! i = Some (k, v) →
  (∀ j v', (i < j)%nat → pairs !! j ≠ Some (k, v')) →
  Dict.get (foldl (λ d kv, Dict.set d kv.1 kv.2) [] pairs) k = Some v.
Proof.
  revert i. induction pairs as [|[k' v'] pairs IH] using rev_ind; intros i Hi Hlast; [done |].
  rewrite dict_of_pairs_snoc. cbn [fst snd].
  destruct (decide (i = length pairs)) as [->|Hne].
  - rewrite list_lookup_middle in Hi by done. injection Hi as -> ->.
    apply dict_get_set_eq.
  - assert (Hlt : (i < length pairs)%nat).
    { apply lookup_lt_Some in Hi. rewrite length_app in Hi. cbn in Hi. lia. }
    rewrite lookup_app_l in Hi by done.
    assert (Hk : k' ≠ k).
    { intros ->. apply (Hlast (length pairs) v'); [done |].
      by rewrite list_lookup_middle. }
    rewrite dict_get_set_ne by done. apply (IH i Hi).
    intros j v'' Hj Hpj. apply (Hlast j v''); [done |].
    by apply lookup_app_l_Some.
Qed.

(** X13. On a table that has the code and the title column,
    [_get_cbsa_title_by_cbsa] returns a dictionary whose keys are the
    codes of the rows that have a title (each once), and which maps a
    code to the title of the last such row holding it. *)
Theorem title_by_cbsa (t : data_table) (cbsa_ids cbsa_titles : list value) :
  t !! "CBSA09" = Some cbsa_ids →
  t !! "CBSA_T" = Some cbsa_titles →
  ∃ titles,
    PopulationStats._get_cbsa_title_by_cbsa t = (Ok titles, t)
    ∧ NoDup (Dict.keys titles)
    ∧ (∀ k, k ∈ Dict.keys titles ↔ k ∈ take (length cbsa_titles) cbsa_ids)
    ∧ (∀ i k title,
         cbsa_ids !! i = Some k → cbsa_titles !! i = Some title →
         (∀ j, (i < j < length cbsa_titles)%nat → cbsa_ids !! j ≠ Some k) →
         Dict.get titles k = Some title).
Proof.
  intros Hids Htitles. eexists. split.
  { unfold PopulationStats._get_cbsa_title_by_cbsa, mbind, method_bind.
    unfold PopulationStats._CBSA09_COL_NAME, PopulationStats._CBSA_TITLE_COL_NAME.
    rewrite (getitem_present _ _ _ Hids), (getitem_present _ _ _ Htitles). reflexivity. }
  destruct (dict_of_pairs_keys (zip cbsa_ids cbsa_titles)) as [Hnd Hin].
  split_and!; [done | |].
  - intros k. by rewrite Hin, fst_zip_take.
  - intros i k title Hi Ht Hlast. apply (dict_of_pairs_last (zip cbsa_ids cbsa_titles) i).
    + rewrite lookup_zip_with, Hi. cbn. by rewrite Ht.
    + intros j v' Hj Hzip. rewrite lookup_zip_with in Hzip.
      destruct (cbsa_ids !! j) as [k'|] eqn:Hk'; [|done]. cbn in Hzip.
      destruct (cbsa_titles !! j) as [t'|] eqn:Ht'; [|done]. cbn in Hzip.
      injection Hzip as -> ->. apply (Hlast j); [|done].
      apply lookup_lt_Some in Ht'. lia.
Qed.

Lemma title_by_cbsa_witness :
  ∃ titles,
    PopulationStats._get_cbsa_title_by_cbsa census_table = (Ok titles, census_table)
    ∧ NoDup (Dict.keys titles)
    ∧ (∀ k, k ∈ Dict.keys titles
            ↔ k ∈ take (length [VStr "Vernon, TX"; VStr "none"; VStr "Ketchikan, AK";
                                 VStr "Vernon, TX"])
                    [VInt 46900; VInt (-1); VInt 28540; VInt 46900])
    ∧ (∀ i k title,
         [VInt 46900; VInt (-1); VInt 28540; VInt 46900] !! i = Some k →
         [VStr "Vernon, TX"; VStr "none"; VStr "Ketchikan, AK"; VStr "Vernon, TX"] !! i
         = Some title →
         (∀ j, (i < j < length [VStr "Vernon, TX"; VStr "none"; VStr "Ketchikan, AK";
                                 VStr "Vernon, TX"])%nat →
               [VInt 46900; VInt (-1); VInt 28540; VInt 46900] !! j ≠ Some k) →
         Dict.get titles k = Some title).
Proof. apply (title_by_cbsa census_table); vm_compute; reflexivity. Defined.

(** ** The report client: the sorted codes *)

Lemma py_insert_ints (x : Z) (s : list Z) :
  ∃ s',
    py_insert (VInt x) (VInt <$> s) = Returned (VInt <$> s')
    ∧ s' ≡ₚ x :: s
    ∧ (StronglySorted Z.le s → StronglySorted Z.le s').
Proof.
  induction s as [|y s (s' & Hins & Hperm & Hsorted)].
  - exists [x]. split_and!; [done | done | intros _; repeat constructor].
  - rewrite fmap_cons. cbn [py_insert py_lt]. case_bool_decide as Hlt.
    + exists (x :: y :: s). split_and!; [done | done |].
      intros Hs. constructor; [done |]. inversion_clear Hs as [|?? Hs' Hall].
      constructor; [lia |]. eapply Forall_impl; [exact Hall |]. intros z Hz. cbn in *. lia.
    + rewrite Hins. exists (y :: s'). split_and!; [done | |].
      * rewrite Hperm. apply Permutation_swap.
      * intros Hs. inversion_clear Hs as [|?? Hs' Hall]. constructor; [by apply Hsorted |].
        rewrite Hperm. constructor; [lia | done].
Qed.

Lemma py_sort_ints (l : list Z) :
  ∃ s,
    py_sort (VInt <$> l) = Returned (VInt <$> s)
    ∧ s ≡ₚ l
    ∧ StronglySorted Z.le s.
Proof.
  induction l as [|x l (s & Hsort & Hperm & Hsorted)].
  - exists []. split_and!; [done | done | constructor].
  - rewrite fmap_cons. cbn [py_sort]. rewrite Hsort.
    destruct (py_insert_ints x s) as (s' & Hins & Hperm' & Hsorted').
    exists s'. split_and!; [done | by rewrite Hperm', Hperm | by apply Hsorted'].
Qed.

Lemma StronglySorted_le_lt (s : list Z) :
  StronglySorted Z.le s → NoDup s → StronglySorted Z.lt s.
Proof.
  induction 1 as [|x s Hs IH Hall]; intros Hnd; [constructor |].
  apply NoDup_cons in Hnd as [Hx Hnd]. constructor; [by apply IH |].
  apply Forall_forall. intros y Hy. rewrite Forall_forall in Hall.
  specialize (Hall y Hy). assert (x ≠ y) by (by intros ->). lia.
Qed.

Lemma elem_of_fmap_VInt (n : Z) (l : list Z) : VInt n ∈ VInt <$> l ↔ n ∈ l.
Proof.
  rewrite list_elem_of_fmap. split; [by intros (m & [= ->] & ?) | by eauto].
Qed.

(** X14. On a table whose code column holds ints,
    [_get_unique_sorted_cbsa] returns the codes other than the
    placeholder [-1], each once, in strictly ascending order, and
    leaves the table as it was. *)
Theorem unique_sorted_cbsa (t : data_table) (cbsa_ids : list Z) :
  t !! "CBSA09" = Some (VInt <$> cbsa_ids) →
  ∃ sorted : list Z,
    PopulationStats._get_unique_sorted_cbsa t = (Returned (VInt <$> sorted), t)
    ∧ StronglySorted Z.lt sorted
    ∧ ∀ n, n ∈ sorted ↔ n ∈ cbsa_ids ∧ n ≠ -1.
Proof.
  intros Hids. unfold PopulationStats._get_unique_sorted_cbsa.
  unfold PopulationStats._CBSA09_COL_NAME. rewrite (getitem_present _ _ _ Hids).
  cbv zeta.
  set (unique := if decide (_ ∈ _) then _ else _).
  assert (Hin : ∀ v, v ∈ elements unique ↔ ∃ n, v = VInt n ∧ n ∈ cbsa_ids ∧ n ≠ -1).
  { intros v. rewrite elem_of_elements. unfold unique.
    unfold PopulationStats._MISSING_CBSA_PLACEHOLDER_VALUE.
    case_decide as Hm.
    - rewrite elem_of_difference, elem_of_list_to_set, list_elem_of_fmap, elem_of_singleton.
      split.
      + intros [(n & -> & Hn) Hne]. exists n. split_and!; [done | done | by intros ->].
      + intros (n & -> & Hn & Hne). split; [by eauto |]. by intros [= ->].
    - rewrite elem_of_list_to_set, list_elem_of_fmap in Hm |- *. split.
      + intros (n & -> & Hn). exists n. split_and!; [done | done |].
        intros ->. apply Hm. by eauto.
      + intros (n & -> & Hn & _). by eauto. }
  assert (Hints : Forall (λ v, ∃ n, v = VInt n) (elements unique)).
  { apply Forall_forall. intros v (n & -> & _)%Hin. by eauto. }
  destruct (ints_of_values _ Hints) as [l Hl].
  destruct (py_sort_ints l) as (sorted & Hsort & Hperm & Hsorted).
  exists sorted. rewrite Hl, Hsort. split_and!; [done | |].
  - apply StronglySorted_le_lt; [done |]. rewrite Hperm.
    apply (NoDup_fmap_1 VInt). rewrite <- Hl. apply NoDup_elements.
  - intros n. rewrite Hperm, <- elem_of_fmap_VInt, <- Hl, Hin. split.
    + by intros (n' & [= <-] & ?).
    + intros ?. by exists n.
Qed.

Lemma unique_sorted_cbsa_witness :
  ∃ sorted : list Z,
    PopulationStats._get_unique_sorted_cbsa census_table
    = (Returned (VInt <$> sorted), census_table)
    ∧ StronglySorted Z.lt sorted
    ∧ ∀ n, n ∈ sorted ↔ n ∈ [46900; -1; 28540; 46900] ∧ n ≠ -1.
Proof. apply (unique_sorted_cbsa census_table). vm_compute. reflexivity. Defined.

Lemma py_insert_Permutation x l l' : py_insert x l = Returned l' → l' ≡ₚ x :: l.
Proof.
  revert l'. induction l as [|y l IH]; intros l' Hins.
  - cbn in Hins. by injection Hins as <-.
  - cbn [py_insert] in Hins. destruct (py_lt x y) as [[|]|e]; [| |done].
    + by injection Hins as <-.
    + destruct (py_insert x l) as [rest|e]; [|done]. injection Hins as <-.
      rewrite (IH rest eq_refl). apply Permutation_swap.
Qed.

Lemma py_sort_Permutation l s : py_sort l = Returned s → s ≡ₚ l.
Proof.
  revert s. induction l as [|x l IH]; intros s Hsort.
  - cbn in Hsort. by injection Hsort as <-.
  - cbn [py_sort] in Hsort. destruct (py_sort l) as [sorted|e]; [|done].
    apply py_insert_Permutation in Hsort. by rewrite Hsort, (IH sorted eq_refl).
Qed.

(** X17. The lookups of the report never miss: on a table whose title
    column is at least as long as its code column, every code that
    [_get_unique_sorted_cbsa] returns has a title in the dictionary of
    [_get_cbsa_title_by_cbsa] and a count of at least one in the result
    of [count]. *)
Theorem report_lookups_defined (t : data_table) (cbsa_ids cbsa_titles sorted : list value) :
  t !! "CBSA09" = Some cbsa_ids →
  t !! "CBSA_T" = Some cbsa_titles →
  (length cbsa_ids ≤ length cbsa_titles)%nat →
  (PopulationStats._get_unique_sorted_cbsa t).1 = Returned sorted →
  ∃ titles counts,
    PopulationStats._get_cbsa_title_by_cbsa t = (Ok titles, t)
    ∧ DataTable.count "CBSA09" t = (Ok counts, t)
    ∧ ∀ cbsa_id, cbsa_id ∈ sorted →
        cbsa_id ≠ VInt (-1)
        ∧ is_Some (Dict.get titles cbsa_id)
        ∧ ∃ c, Dict.get counts cbsa_id = Some c ∧ 1 ≤ c.
Proof.
  intros Hids Htitles Hlen Hsorted.
  unfold PopulationStats._get_unique_sorted_cbsa in Hsorted.
  unfold PopulationStats._CBSA09_COL_NAME in Hsorted.
  rewrite (getitem_present _ _ _ Hids) in Hsorted. cbv zeta in Hsorted. cbn [fst] in Hsorted.
  apply py_sort_Permutation in Hsorted.
  assert (Hin : ∀ v, v ∈ sorted → v ∈ cbsa_ids ∧ v ≠ VInt (-1)).
  { unfold PopulationStats._MISSING_CBSA_PLACEHOLDER_VALUE in Hsorted.
    intros v. rewrite Hsorted, elem_of_elements.
    destruct (decide (VInt (-1) ∈ (list_to_set cbsa_ids : gset value))) as [Hm|Hm].
    - rewrite elem_of_difference, elem_of_list_to_set, elem_of_singleton. tauto.
    - rewrite elem_of_list_to_set in Hm |- *. intros Hv. split; [done |]. by intros ->. }
  eexists _, (DataTable.count_loop cbsa_ids []). split_and!.
  - unfold PopulationStats._get_cbsa_title_by_cbsa, mbind, method_bind.
    unfold PopulationStats._CBSA09_COL_NAME, PopulationStats._CBSA_TITLE_COL_NAME.
    rewrite (getitem_present _ _ _ Hids), (getitem_present _ _ _ Htitles). reflexivity.
  - by apply count_present.
  - intros cbsa_id [Hid Hne]%Hin. split_and!; [done | |].
    + apply dict_get_is_Some.
      apply (proj2 (dict_of_pairs_keys (zip cbsa_ids cbsa_titles))).
      by rewrite fst_zip_take, take_ge.
    + exists (occurrences cbsa_id cbsa_ids).
      split; [by apply count_loop_get |]. pose proof (occurrences_pos _ _ Hid). lia.
Qed.

Lemma report_lookups_defined_witness :
  ∃ titles counts,
    PopulationStats._get_cbsa_title_by_cbsa census_table = (Ok titles, census_table)
    ∧ DataTable.count "CBSA09" census_table = (Ok counts, census_table)
    ∧ ∀ cbsa_id, cbsa_id ∈ [VInt 28540; VInt 46900] →
        cbsa_id ≠ VInt (-1)
        ∧ is_Some (Dict.get titles cbsa_id)
        ∧ ∃ c, Dict.get counts cbsa_id = Some c ∧ 1 ≤ c.
Proof.
  apply (report_lookups_defined census_table
           [VInt 46900; VInt (-1); VInt 28540; VInt 46900]
           [VStr "Vernon, TX"; VStr "none"; VStr "Ketchikan, AK"; VStr "Vernon, TX"]);
    [vm_compute; reflexivity | vm_compute; reflexivity | cbn; lia | vm_compute; reflexivity].
Defined.

(** ** The report client: reading the input *)

Lemma map_Ok_inv (t t' : data_table) col_name (func : value → outcome value) u :
  DataTable.map col_name (of_function func) t = (Ok u, t') →
  ∃ xs ys, t !! col_name = Some xs ∧ mapM func xs = Ok ys ∧ t' = <[col_name := ys]> t.
Proof.
  destruct (t !! col_name) as [xs|] eqn:Hc.
  - rewrite (map_present_function _ _ _ _ Hc).
    destruct (mapM func xs) as [ys|e] eqn:Hm; [|done].
    intros [= _ <-]. by eauto.
  - unfold DataTable.map. rewrite method_bind_unfold. by rewrite (validate_absent _ _ Hc).
Qed.

Lemma cbsa_to_int_succeeds int v :
  v = VStr "" ∨ succeeds (int v) → succeeds (PopulationStats.cbsa_to_int int v).
Proof.
  unfold PopulationStats.cbsa_to_int. case_decide; [done |]. by intros [?|?].
Qed.

(** X15. When the file loads, has the three numeric columns, and [int]
    succeeds on every population field and on every code field that is
    not blank, [_read_data_table] returns the loaded table with exactly
    these three columns rebound to their conversions, every other
    column as loaded; the code column keeps its length, a blank code
    becoming the placeholder [-1] and any other code its [int]. *)
Theorem read_data_table_converts (int : value → outcome value)
    (rows : list (list string)) (t : data_table) (cbsa pop00 pop10 : list value) :
  read_csv rows = Ok t →
  t !! "CBSA09" = Some cbsa →
  t !! "POP00" = Some pop00 →
  t !! "POP10" = Some pop10 →
  Forall (λ v, v = VStr "" ∨ succeeds (int v)) cbsa →
  Forall (λ v, succeeds (int v)) pop00 →
  Forall (λ v, succeeds (int v)) pop10 →
  ∃ cbsa' pop00' pop10',
    PopulationStats._read_data_table int rows
    = Ok (<["POP10" := pop10']> (<["POP00" := pop00']> (<["CBSA09" := cbsa']> t)))
    ∧ mapM int pop00 = Ok pop00'
    ∧ mapM int pop10 = Ok pop10'
    ∧ length cbsa' = length cbsa
    ∧ ∀ i v, cbsa !! i = Some v →
        (v = VStr "" ∧ cbsa' !! i = Some (VInt (-1)))
        ∨ (v ≠ VStr "" ∧ ∃ y, int v = Ok y ∧ cbsa' !! i = Some y).
Proof.
  intros Hload Hc Hp0 Hp1 Hcbsa Hpop00 Hpop10.
  destruct (mapM_outcome_total (PopulationStats.cbsa_to_int int) cbsa) as [cbsa' Hc'].
  { eapply Forall_impl; [exact Hcbsa |]. intros v. apply cbsa_to_int_succeeds. }
  destruct (mapM_outcome_total int pop00 Hpop00) as [pop00' Hp0'].
  destruct (mapM_outcome_total int pop10 Hpop10) as [pop10' Hp1'].
  destruct (mapM_outcome_length _ _ _ Hc') as [Hlen Himg].
  exists cbsa', pop00', pop10'. split_and!; [| done | done | done |].
  - unfold PopulationStats._read_data_table. rewrite Hload. cbn [mbind outcome_bind].
    unfold PopulationStats._CBSA09_COL_NAME, PopulationStats._POPULATION_2000_COL_NAME,
      PopulationStats._POPULATION_2010_COL_NAME.
    rewrite method_bind_unfold, (map_present_function _ _ _ _ Hc), Hc'.
    cbv beta iota. rewrite method_bind_unfold.
    rewrite (map_present_function _ "POP00" int pop00) by (by rewrite lookup_insert_ne).
    rewrite Hp0'. cbv beta iota.
    rewrite (map_present_function _ "POP10" int pop10) by (by rewrite !lookup_insert_ne).
    by rewrite Hp1'.
  - intros i v Hi. destruct (Himg i v Hi) as (y & Hy & Hi').
    unfold PopulationStats.cbsa_to_int in Hy. case_decide as Hv.
    + left. injection Hy as <-. done.
    + right. by eauto.
Qed.

Lemma read_data_table_converts_witness :
  ∃ cbsa' pop00' pop10',
    PopulationStats._read_data_table sample_int sample_rows
    = Ok (<["POP10" := pop10']> (<["POP00" := pop00']> (<["CBSA09" := cbsa']>
            (<["POP10" := [VStr "150"; VStr "80"]]>
             (<["POP00" := [VStr "120"; VStr "80"]]>
              (<["CBSA_T" := [VStr "Vernon, TX"; VStr ""]]>
               (<["CBSA09" := [VStr "46900"; VStr ""]]>
                (<["GEOID" := [VStr "t1"; VStr "t2"]]> ∅))))))))
    ∧ mapM sample_int [VStr "120"; VStr "80"] = Ok pop00'
    ∧ mapM sample_int [VStr "150"; VStr "80"] = Ok pop10'
    ∧ length cbsa' = length [VStr "46900"; VStr ""]
    ∧ ∀ i v, [VStr "46900"; VStr ""] !! i = Some v →
        (v = VStr "" ∧ cbsa' !! i = Some (VInt (-1)))
        ∨ (v ≠ VStr "" ∧ ∃ y, sample_int v = Ok y ∧ cbsa' !! i = Some y).
Proof.
  apply (read_data_table_converts sample_int sample_rows);
    [vm_compute; reflexivity .. | | |].
  - repeat constructor; (by left) || (right; vm_compute; exact I).
  - repeat constructor.
  - repeat constructor.
Defined.

(** X16. Whenever [_read_data_table] returns a table (with an [int]
    that, like the builtin, only returns ints), the code column and
    both population columns of that table hold numbers only, so the
    population sums per code and the tract count per code of the
    report succeed on it. *)
Theorem read_data_table_summable (int : value → outcome value)
    (rows : list (list string)) (t' : data_table) :
  (∀ v y, int v = Ok y → ∃ n, y = VInt n) →
  PopulationStats._read_data_table int rows = Ok t' →
  (∀ col_name, col_name ∈ ["CBSA09"; "POP00"; "POP10"] →
     ∃ values, t' !! col_name = Some values ∧ Forall (λ v, is_number v = true) values)
  ∧ (∃ sums, DataTable.sum "POP00" "CBSA09" t' = (Ok sums, t'))
  ∧ (∃ sums, DataTable.sum "POP10" "CBSA09" t' = (Ok sums, t'))
  ∧ (∃ counts, DataTable.count "CBSA09" t' = (Ok counts, t')).
Proof.
  intros Hint Hread. unfold PopulationStats._read_data_table in Hread.
  destruct (read_csv rows) as [t|e]; [|done]. cbn [mbind outcome_bind] in Hread.
  unfold PopulationStats._CBSA09_COL_NAME, PopulationStats._POPULATION_2000_COL_NAME,
    PopulationStats._POPULATION_2010_COL_NAME in Hread.
  rewrite method_bind_unfold in Hread.
  destruct (DataTable.map "CBSA09" _ t) as [[u1|e1] t1] eqn:H1; [|done].
  rewrite method_bind_unfold in Hread.
  destruct (DataTable.map "POP00" _ t1) as [[u2|e2] t2] eqn:H2; [|done].
  destruct (DataTable.map "POP10" _ t2) as [[u3|e3] t3] eqn:H3; [|done].
  injection Hread as ->.
  apply map_Ok_inv in H1 as (c & c' & _ & Hc' & ->).
  apply map_Ok_inv in H2 as (p0 & p0' & _ & Hp0' & ->).
  apply map_Ok_inv in H3 as (p1 & p1' & _ & Hp1' & ->).
  assert (Hic : Forall (λ v, ∃ n, v = VInt n) c').
  { apply (mapM_outcome_Forall _ (PopulationStats.cbsa_to_int int) c c'); [|done].
    intros x y Hxy. unfold PopulationStats.cbsa_to_int in Hxy. case_decide.
    - injection Hxy as <-. by eexists.
    - by eapply Hint. }
  assert (Hi0 : Forall (λ v, ∃ n, v = VInt n) p0')
    by exact (mapM_outcome_Forall _ _ _ _ Hint Hp0').
  assert (Hi1 : Forall (λ v, ∃ n, v = VInt n) p1')
    by exact (mapM_outcome_Forall _ _ _ _ Hint Hp1').
  assert (Hnum : ∀ l, Forall (λ v, ∃ n, v = VInt n) l → Forall (λ v, is_number v = true) l).
  { intros l Hl. eapply Forall_impl; [exact Hl |]. by intros v [n ->]. }
  set (t' := <["POP10" := p1']> (<["POP00" := p0']> (<["CBSA09" := c']> t))).
  assert (Hc : t' !! "CBSA09" = Some c') by (unfold t'; by simplify_map_eq).
  assert (H0 : t' !! "POP00" = Some p0') by (unfold t'; by simplify_map_eq).
  assert (H1 : t' !! "POP10" = Some p1') by (unfold t'; by simplify_map_eq).
  split_and!.
  - intros col_name Hin. repeat (apply elem_of_cons in Hin as [->|Hin]); [by eauto .. |].
    by apply elem_of_nil in Hin.
  - apply ints_of_values in Hi0 as [zs Hzs]. eexists.
    rewrite (sum_present _ _ _ _ _ H0 Hc).
    rewrite (sum_loop_ints _ _ (take (length c') zs)) by (by rewrite Hzs, fmap_take).
    reflexivity.
  - apply ints_of_values in Hi1 as [zs Hzs]. eexists.
    rewrite (sum_present _ _ _ _ _ H1 Hc).
    rewrite (sum_loop_ints _ _ (take (length c') zs)) by (by rewrite Hzs, fmap_take).
    reflexivity.
  - eexists. by apply count_present.
Qed.

Lemma read_data_table_summable_witness :
  (∀ col_name, col_name ∈ ["CBSA09"; "POP00"; "POP10"] →
     ∃ values, sample_table !! col_name = Some values
               ∧ Forall (λ v, is_number v = true) values)
  ∧ (∃ sums, DataTable.sum "POP00" "CBSA09" sample_table = (Ok sums, sample_table))
  ∧ (∃ sums, DataTable.sum "POP10" "CBSA09" sample_table = (Ok sums, sample_table))
  ∧ (∃ counts, DataTable.count "CBSA09" sample_table = (Ok counts, sample_table)).
Proof.
  apply (read_data_table_summable sample_int sample_rows).
  - intros v y. unfold sample_int. repeat case_decide; intros [= <-]; by eexists.
  - vm_compute. reflexivity.
Defined.

(** ** Columns of different lengths *)

Lemma zip_take_l {A B} (l : list A) (k : list B) : zip (take (length k) l) k = zip l k.
Proof.
  revert k. induction l as [|a l IH]; intros [|b k]; [done .. |]. cbn. by rewrite IH.
Qed.

Lemma zip_take_r {A B} (l : list A) (k : list B) : zip l (take (length l) k) = zip l k.
Proof.
  revert k. induction l as [|a l IH]; intros [|b k]; [done .. |]. cbn. by rewrite IH.
Qed.

(** X9. [sum] never looks past the shorter of its two columns: cutting
    the summed column to the length of the group column, or the group
    column to the length of the summed column, changes neither the
    dictionary [sum] returns nor the exception it raises. *)
Theorem sum_ignores_unpaired (t : data_table) (col_name group_by : string)
    (cs gs : list value) :
  t !! col_name = Some cs →
  t !! group_by = Some gs →
  col_name ≠ group_by →
  (DataTable.sum col_name group_by (<[col_name := take (length gs) cs]> t)).1
  = (DataTable.sum col_name group_by t).1
  ∧ (DataTable.sum col_name group_by (<[group_by := take (length cs) gs]> t)).1
    = (DataTable.sum col_name group_by t).1.
Proof.
  intros Hc Hg Hne. rewrite (sum_present _ _ _ _ _ Hc Hg). split.
  - rewrite (sum_present _ _ _ (take (length gs) cs) gs).
    + by rewrite zip_take_l.
    + apply lookup_insert_eq.
    + by rewrite lookup_insert_ne.
  - rewrite (sum_present _ _ _ cs (take (length cs) gs)).
    + by rewrite zip_take_r.
    + rewrite lookup_insert_ne; [done | congruence].
    + apply lookup_insert_eq.
Qed.

Lemma sum_ignores_unpaired_witness :
  (DataTable.sum "A" "B"
     (<["A" := take (length [VStr "x"]) [VInt 1; VStr "a"]]>
        (<["A" := [VInt 1; VStr "a"]]> (<["B" := [VStr "x"]]> ∅)))).1
  = (DataTable.sum "A" "B" (<["A" := [VInt 1; VStr "a"]]> (<["B" := [VStr "x"]]> ∅))).1
  ∧ (DataTable.sum "A" "B"
       (<["B" := take (length [VInt 1; VStr "a"]) [VStr "x"]]>
          (<["A" := [VInt 1; VStr "a"]]> (<["B" := [VStr "x"]]> ∅)))).1
    = (DataTable.sum "A" "B" (<["A" := [VInt 1; VStr "a"]]> (<["B" := [VStr "x"]]> ∅))).1.
Proof.
  apply (sum_ignores_unpaired (<["A" := [VInt 1; VStr "a"]]> (<["B" := [VStr "x"]]> ∅))
           "A" "B" [VInt 1; VStr "a"] [VStr "x"]);
    [vm_compute; reflexivity | vm_compute; reflexivity | discriminate].
Defined.
